(** * Device reporting and GPU health checking of the koordlet states informer

    A shallow embedding of [reportDevice], [createDevice], [updateDevice],
    [buildGPUDevice], [gpuHealCheck] and [checkHealth] (package
    [statesinformer]), with the properties of the device health monitoring
    and reconciliation loop stated over it.

    Conventions.
    - Go integers ([int32] minors, [uint64] event types and event data,
      [nvml.Return] codes) are [Z]; the code only compares them.
    - A [resource.Quantity] is the integer it denotes: the semantic deep
      equality of apimachinery compares quantities with [Cmp].
    - A [map[corev1.ResourceName]resource.Quantity] is a [gmap string Z]; a
      Go [map[string]struct{}] used as a set is a [gset string].
    - A slice is a [list]; [nil] and the empty slice are both [[]], which is
      how the semantic deep equality treats them.
    - The store client and the klog sink are threaded explicitly: every
      method of the informer that talks to them is a state transformer over
      a [World] that records the calls and the log lines. *)

From Stdlib Require Import ZArith.
From stdpp Require Import base numbers strings gmap list sorting.

Local Open Scope Z_scope.

(* ===================================================================== *)
(** ** Data model *)
(* ===================================================================== *)

(** [corev1.ResourceName] constants of [apis/extension] used by the builder.
    The three names are pairwise distinct. *)
Definition ResourceName := string.
Definition GPUCore : ResourceName := "koordinator.sh/gpu-core".
Definition GPUMemory : ResourceName := "koordinator.sh/gpu-memory".
Definition GPUMemoryRatio : ResourceName := "koordinator.sh/gpu-memory-ratio".

(** [schedulingv1alpha1.DeviceType] and its [GPU] constant. *)
Definition DeviceType := string.
Definition GPU : DeviceType := "gpu".

(** [schedulingv1alpha1.DeviceInfo]; the field [Type] is [Type_] here. *)
Record DeviceInfo := mkDeviceInfo {
  UUID : string;
  Minor : Z;
  Type_ : DeviceType;
  Health : bool;
  Resources : gmap ResourceName Z
}.

#[global] Instance DeviceInfo_eq_dec : EqDecision DeviceInfo.
Proof. solve_decision. Defined.

(** [metav1.OwnerReference], [metav1.ObjectMeta] (the fields the code sets
    or the store manages), [DeviceSpec] and [Device]. *)
Record OwnerReference := mkOwnerReference {
  APIVersion : string;
  Kind : string;
  OwnerName : string;
  OwnerUID : string;
  Controller : option bool;
  BlockOwnerDeletion : option bool
}.

#[global] Instance OwnerReference_eq_dec : EqDecision OwnerReference.
Proof. solve_decision. Defined.

Record ObjectMeta := mkObjectMeta {
  Name : string;
  ResourceVersion : Z;
  OwnerReferences : list OwnerReference
}.

#[global] Instance ObjectMeta_eq_dec : EqDecision ObjectMeta.
Proof. solve_decision. Defined.

Record DeviceSpec := mkDeviceSpec { Devices : list DeviceInfo }.

#[global] Instance DeviceSpec_eq_dec : EqDecision DeviceSpec.
Proof. solve_decision. Defined.

Record Device := mkDevice { Meta : ObjectMeta; Spec : DeviceSpec }.

#[global] Instance Device_eq_dec : EqDecision Device.
Proof. solve_decision. Defined.

(** [corev1.Node]: the name and the UID are all the code reads. *)
Record Node := mkNode { NodeName : string; NodeUID : string }.

(** One GPU of [metriccache.NodeResourceMetric] and the query result. *)
Record GPUMetric := mkGPUMetric {
  DeviceUUID : string;
  GPUMinor : Z;
  MemoryTotal : Z
}.

Record NodeResourceQueryResult := mkQueryResult {
  Error : option string;
  GPUs : list GPUMetric
}.

(** The fields of [statesInformer] the device reporter touches.  The store
    client lives in the [World] below; [metricsCache] holds what
    [GetNodeResourceMetric] answers for the current trailing window. *)
Record statesInformer := mkStatesInformer {
  node : Node;
  metricsCache : NodeResourceQueryResult;
  unhealthyGPU : gset string
}.

Definition GetNode (s : statesInformer) : Node := node s.
Definition GetNodeResourceMetric (s : statesInformer) : NodeResourceQueryResult :=
  metricsCache s.

(* ===================================================================== *)
(** ** Errors of the store and the klog sink *)
(* ===================================================================== *)

(** The reason of an apimachinery [StatusError]; an [error] is non-nil
    exactly when it is [Some] reason. *)
Inductive StatusReason :=
| StatusReasonNotFound
| StatusReasonAlreadyExists
| StatusReasonConflict
| StatusReasonTooManyRequests
| StatusReasonForbidden
| StatusReasonInvalid
| StatusReasonInternalError.

#[global] Instance StatusReason_eq_dec : EqDecision StatusReason.
Proof. solve_decision. Defined.

Definition error := option StatusReason.

Definition IsNotFound (err : StatusReason) : bool :=
  bool_decide (err = StatusReasonNotFound).
Definition IsConflict (err : StatusReason) : bool :=
  bool_decide (err = StatusReasonConflict).
Definition IsTooManyRequests (err : StatusReason) : bool :=
  bool_decide (err = StatusReasonTooManyRequests).

(** A klog line: the severity, the verbosity of [klog.V(n)] and the format
    string (the arguments are dropped). *)
Inductive LogLine :=
| Errorf (format : string)
| Warningf (format : string)
| Infof (v : Z) (format : string).

#[global] Instance LogLine_eq_dec : EqDecision LogLine.
Proof. solve_decision. Defined.

Definition is_error_line (l : LogLine) : bool :=
  match l with Errorf _ => true | _ => false end.

(** A call on [s.deviceClient]. *)
Inductive Call :=
| CallGet (name : string)
| CallCreate (device : Device)
| CallUpdate (device : Device).

#[global] Instance Call_eq_dec : EqDecision Call.
Proof. solve_decision. Defined.

(** A store mutation is a [Create] or an [Update]. *)
Definition is_write (c : Call) : bool :=
  match c with CallGet _ => false | _ => true end.

Definition writes (cs : list Call) : list Call := filter (λ c, is_write c = true) cs.

Definition is_create (c : Call) : bool :=
  match c with CallCreate _ => true | _ => false end.

(** The typed client of the Device resource ([DeviceInterface]), as an
    interface over the state [St] of whatever implements it. *)
Class DeviceInterface (St : Type) := {
  client_Get : string → St → (Device + StatusReason) * St;
  client_Create : Device → St → error * St;
  client_Update : Device → St → error * St
}.

Record World (St : Type) := mkWorld {
  w_store : St;
  w_calls : list Call;
  w_logs : list LogLine
}.
Arguments mkWorld {St} _ _ _.
Arguments w_store {St} _.
Arguments w_calls {St} _.
Arguments w_logs {St} _.

Definition M (St A : Type) : Type := World St → A * World St.

Definition ret {St A} (a : A) : M St A := λ w, (a, w).
Definition bind {St A B} (m : M St A) (k : A → M St B) : M St B :=
  λ w, let '(a, w') := m w in k a w'.

Declare Scope informer_scope.
Delimit Scope informer_scope with informer.
Notation "'let*' x := m 'in' k" := (bind m (λ x, k))
  (at level 10, x name, m at level 100, k at level 200) : informer_scope.
Notation "m ';;;' k" := (bind m (λ _, k))
  (at level 100, k at level 200, right associativity) : informer_scope.

Definition klog {St} (l : LogLine) : M St unit :=
  λ w, (tt, mkWorld (w_store w) (w_calls w) (w_logs w ++ [l])).

Definition initial_world {St} (st : St) : World St := mkWorld st [] [].

(* ===================================================================== *)
(** ** [sort.Slice] with the comparator of [updateDevice] *)
(* ===================================================================== *)

(** [less] of the [sorter] closure: [devices[i].Minor < devices[j].Minor]. *)
Definition less (a b : DeviceInfo) : bool := Minor a <? Minor b.

(** The inner loop of the insertion sort of package [sort]:
    [for j := i; j > a && less(data[j], data[j-1]); j-- { swap(j, j-1) }].
    [before] is the already sorted prefix [data[a..i)] read from [i-1] down
    to [a]; the result is the prefix [data[a..i]] read the same way. *)
Fixpoint sift (x : DeviceInfo) (before : list DeviceInfo) : list DeviceInfo :=
  match before with
  | y :: rest => if less x y then y :: sift x rest else x :: before
  | [] => [x]
  end.

(** [sort.Slice(devices, less)].  The library sorts a short slice (at most
    12 elements, 6 before Go 1.19) with this insertion sort; on a longer
    one it runs another comparison sort, whose result is the same whenever
    the minors are pairwise distinct ([sorter_unique] below). *)
Definition sort_Slice (devices : list DeviceInfo) : list DeviceInfo :=
  reverse (fold_left (λ before x, sift x before) devices []).

(** The [sorter] closure of [updateDevice]. *)
Definition sorter (devices : list DeviceInfo) : list DeviceInfo := sort_Slice devices.

(** [apiequality.Semantic.DeepEqual] on two device lists. *)
Definition DeepEqual (a b : list DeviceInfo) : bool := bool_decide (a = b).

(* ===================================================================== *)
(** ** The inventory builder *)
(* ===================================================================== *)

(** The body of the [for _, gpu := range nodeResource.Metric.GPUs] loop. *)
Definition deviceInfoOf (unhealthy : gset string) (gpu : GPUMetric) : DeviceInfo :=
  let health := if decide (DeviceUUID gpu ∈ unhealthy) then false else true in
  {| UUID := DeviceUUID gpu;
     Minor := GPUMinor gpu;
     Type_ := GPU;
     Health := health;
     Resources := <[GPUCore := 100]> (<[GPUMemory := MemoryTotal gpu]>
                    (<[GPUMemoryRatio := 100]> ∅)) |}.

Definition buildGPUDevice {St} (s : statesInformer) : M St (list DeviceInfo) :=
  (let nodeResource := GetNodeResourceMetric s in
   match Error nodeResource with
   | Some _ =>
       klog (Errorf "failed to get node resource metric, err: %v") ;;;
       ret []
   | None =>
       if bool_decide (length (GPUs nodeResource) = 0%nat) then
         klog (Infof 5 "no gpu device found") ;;;
         ret []
       else
         ret (map (deviceInfoOf (unhealthyGPU s)) (GPUs nodeResource))
   end)%informer.

(* ===================================================================== *)
(** ** The reconciler *)
(* ===================================================================== *)

Section Reconciler.
Context {St : Type} `{!DeviceInterface St}.

(** The three calls the code makes on [s.deviceClient]; each is recorded.
    The read passes [GetOptions{ResourceVersion: "0"}], which lets the
    store answer from a cache: what it answers is up to the client. *)
Definition deviceClient_Get (name : string) : M St (Device + StatusReason) :=
  λ w, let '(r, st) := client_Get name (w_store w) in
       (r, mkWorld st (w_calls w ++ [CallGet name]) (w_logs w)).

Definition deviceClient_Create (device : Device) : M St error :=
  λ w, let '(r, st) := client_Create device (w_store w) in
       (r, mkWorld st (w_calls w ++ [CallCreate device]) (w_logs w)).

Definition deviceClient_Update (device : Device) : M St error :=
  λ w, let '(r, st) := client_Update device (w_store w) in
       (r, mkWorld st (w_calls w ++ [CallUpdate device]) (w_logs w)).

(** Modelled from the spec: [util.RetryOnConflictOrTooManyRequests] is
    declared in [pkg/util], outside the files at hand.  The spec (4.4)
    describes a bounded retry that runs the closure again whenever the
    store reports a write conflict or a rate-limit condition, up to the
    retry policy's limit; [retries] is the number of further attempts the
    policy allows after the first one, and the last error is returned
    when they are used up. *)
Fixpoint RetryOnConflictOrTooManyRequests (retries : nat) (fn : M St error)
  : M St error :=
  (let* err := fn in
   match err with
   | None => ret None
   | Some e =>
       if IsConflict e || IsTooManyRequests e then
         match retries with
         | O => ret (Some e)
         | S n => RetryOnConflictOrTooManyRequests n fn
         end
       else ret (Some e)
   end)%informer.

Variable retries : nat.

Definition createDevice (node : Node) (gpuDevices : list DeviceInfo) : M St error :=
  let blocker := true in
  let device :=
    {| Meta := {| Name := NodeName node;
                  ResourceVersion := 0;
                  OwnerReferences :=
                    [ {| APIVersion := "v1";
                         Kind := "Node";
                         OwnerName := NodeName node;
                         OwnerUID := NodeUID node;
                         Controller := Some blocker;
                         BlockOwnerDeletion := Some blocker |} ] |};
       Spec := {| Devices := gpuDevices |} |} in
  deviceClient_Create device.

(** The closure handed to the retry helper by [updateDevice]; [gpuDevices]
    is the already sorted snapshot it captures. *)
Definition updateDevice_attempt (name : string) (gpuDevices : list DeviceInfo)
  : M St error :=
  (let* r := deviceClient_Get name in
   match r with
   | inr err => ret (Some err)
   | inl device =>
       let devices := sorter (Devices (Spec device)) in
       if DeepEqual gpuDevices devices then
         klog (Infof 4 "Device %s has not changed and does not need to be updated") ;;;
         ret None
       else
         let device := {| Meta := Meta device;
                          Spec := {| Devices := gpuDevices |} |} in
         deviceClient_Update device
   end)%informer.

(** [updateDevice].  [sorter(gpuDevices)] sorts the caller's slice in
    place, so the sorted slice is handed back next to the error: it is
    what [reportDevice] passes on to [createDevice]. *)
Definition updateDevice (name : string) (gpuDevices : list DeviceInfo)
  : M St (error * list DeviceInfo) :=
  (let gpuDevices := sorter gpuDevices in
   let* err := RetryOnConflictOrTooManyRequests retries
                 (updateDevice_attempt name gpuDevices) in
   ret (err, gpuDevices))%informer.

Definition reportDevice (s : statesInformer) : M St unit :=
  (let node := GetNode s in
   let* gpuDevices := buildGPUDevice s in
   let* r := updateDevice (NodeName node) gpuDevices in
   let gpuDevices := r.2 in
   match r.1 with
   | None => klog (Infof 4 "successfully update Device %s")
   | Some err =>
       if negb (IsNotFound err) then
         klog (Errorf "Failed to updateDevice %s, err: %v")
       else if bool_decide (length gpuDevices = 0%nat) then
         ret tt
       else
         let* err := createDevice node gpuDevices in
         match err with
         | None => klog (Infof 4 "successfully create Device %s")
         | Some _ => klog (Errorf "Failed to create Device %s, err: %v")
         end
   end)%informer.
End Reconciler.

(* ===================================================================== *)
(** ** Two implementations of the client *)
(* ===================================================================== *)

(** An in-memory object store with optimistic concurrency: objects are
    kept by name, a write bumps the resource version, and an update whose
    resource version is not the stored one is a conflict. *)
Record StoredObject := mkStoredObject {
  so_version : Z;
  so_owners : list OwnerReference;
  so_devices : list DeviceInfo
}.

Definition device_of (name : string) (o : StoredObject) : Device :=
  {| Meta := {| Name := name; ResourceVersion := so_version o;
                OwnerReferences := so_owners o |};
     Spec := {| Devices := so_devices o |} |}.

Definition store_Get (name : string) (st : gmap string StoredObject)
  : (Device + StatusReason) * gmap string StoredObject :=
  match st !! name with
  | Some o => (inl (device_of name o), st)
  | None => (inr StatusReasonNotFound, st)
  end.

Definition store_Create (d : Device) (st : gmap string StoredObject)
  : error * gmap string StoredObject :=
  match st !! Name (Meta d) with
  | Some _ => (Some StatusReasonAlreadyExists, st)
  | None =>
      (None, <[Name (Meta d) :=
                 mkStoredObject 1 (OwnerReferences (Meta d)) (Devices (Spec d))]> st)
  end.

Definition store_Update (d : Device) (st : gmap string StoredObject)
  : error * gmap string StoredObject :=
  match st !! Name (Meta d) with
  | None => (Some StatusReasonNotFound, st)
  | Some o =>
      if bool_decide (ResourceVersion (Meta d) = so_version o) then
        (None, <[Name (Meta d) :=
                   mkStoredObject (so_version o + 1) (OwnerReferences (Meta d))
                                  (Devices (Spec d))]> st)
      else (Some StatusReasonConflict, st)
  end.

#[global] Instance object_store : DeviceInterface (gmap string StoredObject) :=
  {| client_Get := store_Get;
     client_Create := store_Create;
     client_Update := store_Update |}.

(** A test double that answers from a script, one canned reply per call,
    whatever the call is; a reply of the wrong shape or a missing one is
    an internal error. *)
Inductive Reply :=
| ReplyGet (r : Device + StatusReason)
| ReplyWrite (e : error).

Definition scripted_Get (name : string) (script : list Reply)
  : (Device + StatusReason) * list Reply :=
  match script with
  | ReplyGet r :: rest => (r, rest)
  | _ :: rest => (inr StatusReasonInternalError, rest)
  | [] => (inr StatusReasonInternalError, [])
  end.

Definition scripted_write (d : Device) (script : list Reply) : error * list Reply :=
  match script with
  | ReplyWrite e :: rest => (e, rest)
  | _ :: rest => (Some StatusReasonInternalError, rest)
  | [] => (Some StatusReasonInternalError, [])
  end.

#[global] Instance scripted_client : DeviceInterface (list Reply) :=
  {| client_Get := scripted_Get;
     client_Create := scripted_write;
     client_Update := scripted_write |}.

(* ===================================================================== *)
(** ** The health monitor *)
(* ===================================================================== *)

(** [nvml.Return] codes and event types the code names (values of
    go-nvml). *)
Definition Return := Z.
Definition SUCCESS : Return := 0.
Definition ERROR_NOT_SUPPORTED : Return := 3.
Definition ERROR_NOT_FOUND : Return := 6.
Definition ERROR_TIMEOUT : Return := 10.
Definition ERROR_LIBRARY_NOT_FOUND : Return := 12.
Definition ERROR_UNKNOWN : Return := 999.

Definition EventTypeSingleBitEccError : Z := 1.
Definition EventTypeDoubleBitEccError : Z := 2.
Definition EventTypeXidCriticalError : Z := 8.

(** The functions of the device library the monitor calls, over the type
    of device handles ([nvml.Device]). *)
Class Nvml (Handle : Type) := {
  Init : Return;
  EventSetCreate : Return;
  DeviceGetCount : Z * Return;
  DeviceGetHandleByIndex : Z → Handle * Return;
  DeviceGetHandleByUUID : string → Handle * Return;
  DeviceRegisterEvents : Handle → Z → Return;
  GetUUID : Handle → string * Return
}.

(** [nvml.EventData]; its fields [Device] and [EventData] are [EvDevice]
    and [EvData] here. *)
Record EventData (Handle : Type) := mkEventData {
  EvDevice : Handle;
  EventType : Z;
  EvData : Z
}.
Arguments mkEventData {Handle} _ _ _.
Arguments EvDevice {Handle} _.
Arguments EventType {Handle} _.
Arguments EvData {Handle} _.

(** What [checkHealth] does that the rest of the process can observe, in
    program order: a registration with the event set, a send on the [xids]
    channel, a log line. *)
Inductive Effect :=
| Registered (d : string) (ret : Return)
| Send (d : string)
| Logged (l : LogLine).

Definition sends (t : list Effect) : list string :=
  omap (λ e, match e with Send d => Some d | _ => None end) t.

Definition registrations (t : list Effect) : list string :=
  omap (λ e, match e with Registered d _ => Some d | _ => None end) t.

(** How [checkHealth] ends: [os.Exit(1)] or a return on [stopCh]. *)
Inductive Outcome := Exit1 | Stopped.

(** [e.EventData == 13 || ... || e.EventData == 68]. *)
Definition is_application_error (data : Z) : bool :=
  (data =? 13) || (data =? 31) || (data =? 43) || (data =? 45) || (data =? 68).

Section HealthMonitor.
Context {Handle : Type} `{!Nvml Handle}.

(** [initGPU]: both failure branches log a warning and return false. *)
Definition initGPU : bool :=
  if bool_decide (Init ≠ SUCCESS) then false else true.

(** The body of the registration loop of [checkHealth]. *)
Definition register_device (d : string) : list Effect :=
  let '(device, ret) := DeviceGetHandleByUUID d in
  if bool_decide (ret ≠ SUCCESS) then
    [Logged (Errorf "failed to get device %s, err: %v")]
  else
    let ret := DeviceRegisterEvents device EventTypeXidCriticalError in
    if bool_decide (ret = ERROR_NOT_SUPPORTED) then
      [Registered d ret;
       Logged (Infof 0 "Warning: %s is too old to support healthchecking: %v. Marking it unhealthy.");
       Send d]
    else if bool_decide (ret ≠ SUCCESS) then
      [Registered d ret;
       Logged (Infof 0 "failed to register event for device %s, err: %v")]
    else [Registered d ret].

Definition register_devices (devs : list string) : list Effect :=
  flat_map register_device devs.

(** One iteration of the [for] loop of [checkHealth] that got past the
    [stopCh] check: [wait] is what [eventSet.Wait(5000)] returned. *)
Definition watch_step (devs : list string) (wait : EventData Handle * Return)
  : list Effect :=
  let '(e, ret) := wait in
  if bool_decide (ret ≠ SUCCESS)
     && bool_decide (EventType e ≠ EventTypeXidCriticalError) then []
  else if is_application_error (EvData e) then []
  else
    let '(uuid, ret) := GetUUID (EvDevice e) in
    if bool_decide (ret ≠ SUCCESS) then
      [Logged (Errorf "failed to get uuid of device %s, err: %v")]
    else if bool_decide (String.length uuid = 0%nat) then
      map Send devs
    else
      flat_map (λ d, if bool_decide (d = uuid) then [Send d] else []) devs.

(** [checkHealth]: [waits] lists what the successive calls of
    [eventSet.Wait] return until [stopCh] is found closed. *)
Definition checkHealth (devs : list string) (waits : list (EventData Handle * Return))
  : Outcome * list Effect :=
  if bool_decide (EventSetCreate ≠ SUCCESS) then
    (Exit1, [Logged (Errorf "failed to create event set, err: %v")])
  else
    (Stopped, register_devices devs ++ flat_map (watch_step devs) waits).

(** The enumeration loop of [gpuHealCheck]; the UUID is appended even
    when [GetUUID] fails, as in the code. *)
Definition enumerate_device (deviceIndex : Z) : list string :=
  let '(gpudevice, ret) := DeviceGetHandleByIndex deviceIndex in
  if bool_decide (ret ≠ SUCCESS) then []
  else let '(uuid, _) := GetUUID gpudevice in [uuid].

Definition enumerate_devices (count : Z) : list string :=
  flat_map enumerate_device (seqZ 0 count).

(** [s.unhealthyGPU[d] = struct{}{}], the body of the receiving loop. *)
Definition markUnhealthy (s : statesInformer) (d : string) : statesInformer :=
  {| node := node s; metricsCache := metricsCache s;
     unhealthyGPU := {[d]} ∪ unhealthyGPU s |}.

Definition receive (s : statesInformer) (xs : list string) : statesInformer :=
  fold_left markUnhealthy xs s.

(** [gpuHealCheck]: it starts [checkHealth] on the enumerated devices and
    records every identifier that arrives on the channel. *)
Definition gpuHealCheck (s : statesInformer) (waits : list (EventData Handle * Return))
  : statesInformer :=
  let '(count, ret) := DeviceGetCount in
  if bool_decide (ret ≠ SUCCESS) then s
  else if bool_decide (count = 0) then s
  else
    let devices := enumerate_devices count in
    receive s (sends (checkHealth devices waits).2).
End HealthMonitor.

(** A device library over a fixed table of boards, for running the
    monitor without hardware. *)
Record Board := mkBoard {
  board_uuid : string;
  board_uuid_ret : Return;
  board_register_ret : Return
}.

Definition no_board : Board := mkBoard "" ERROR_NOT_FOUND ERROR_NOT_FOUND.

Definition boards_nvml (boards : list Board) : Nvml Board :=
  {| Init := SUCCESS;
     EventSetCreate := SUCCESS;
     DeviceGetCount := (Z.of_nat (length boards), SUCCESS);
     DeviceGetHandleByIndex i :=
       match boards !! Z.to_nat i with
       | Some b => (b, SUCCESS)
       | None => (no_board, ERROR_NOT_FOUND)
       end;
     DeviceGetHandleByUUID u :=
       match list_find (λ b, board_uuid b = u) boards with
       | Some (_, b) => (b, SUCCESS)
       | None => (no_board, ERROR_NOT_FOUND)
       end;
     DeviceRegisterEvents b _ := board_register_ret b;
     GetUUID b := (board_uuid b, board_uuid_ret b) |}.

(* ===================================================================== *)
(** ** The pod validating webhook *)
(* ===================================================================== *)

(** [admissionv1.Operation] and its constants. *)
Definition Operation := string.
Definition Create : Operation := "CREATE".
Definition Update : Operation := "UPDATE".
Definition Delete : Operation := "DELETE".
Definition Connect : Operation := "CONNECT".

(** [metav1.GroupVersionResource]; its field [Resource] is [GVRResource]
    here. *)
Record GroupVersionResource := mkGVR {
  Group : string;
  Version : string;
  GVRResource : string
}.

(** The fields of [admission.Request] the handler reads; [Name] is
    [RequestName] here, [OldObject.Raw] and [Object.Raw] are byte lists. *)
Record Request := mkRequest {
  SubResource : string;
  Resource : GroupVersionResource;
  RequestOperation : Operation;
  OldObjectRaw : list Byte.byte;
  ObjectRaw : list Byte.byte;
  Namespace : string;
  RequestName : string
}.

(** [admission.Response] as built by the two constructors the handler
    uses; [Allowed] reads [AdmissionResponse.Allowed], which [Errored]
    leaves false. *)
Inductive Response :=
| Errored (code : Z) (err : string)
| ValidationResponse (allowed : bool) (reason : string).

Definition Allowed (r : Response) : bool :=
  match r with
  | Errored _ _ => false
  | ValidationResponse allowed _ => allowed
  end.

Definition StatusBadRequest : Z := 400.

(** The two validations the handler delegates to, declared elsewhere in
    the repository: the colocation-profile check of this package and
    [ValidatePod] of the elastic-quota plugin.  An error is its message. *)
Class PodValidators := {
  clusterColocationProfileValidatingPod : Request → bool * string * option string;
  ValidatePod : Request → option string
}.

(** What a call of the handler does besides computing its answer. *)
Inductive HandlerEffect :=
| ConsultedProfile
| ConsultedQuota
| Warned (format : string).

Definition shouldIgnoreIfNotPod (req : Request) : bool :=
  if negb (bool_decide (String.length (SubResource req) = 0%nat))
     || negb (bool_decide (GVRResource (Resource req) = "pods"))
  then true
  else false.

Section Webhook.
Context `{!PodValidators}.

(** [validatingPodFn]: the named results [allowed], [reason], [err], and
    the effects in program order. *)
Definition validatingPodFn (req : Request)
  : (bool * string * option string) * list HandlerEffect :=
  let allowed := true in
  if shouldIgnoreIfNotPod req then ((allowed, "", None), [])
  else if bool_decide (RequestOperation req = Delete)
          && bool_decide (length (OldObjectRaw req) = 0%nat) then
    ((allowed, "", None),
     [Warned "Skip to validate pod %s/%s deletion for no old object, maybe because of Kubernetes version < 1.16"])
  else
    let '(allowed, reason, err) := clusterColocationProfileValidatingPod req in
    match err with
    | None =>
        match ValidatePod req with
        | Some err => ((false, "", Some err), [ConsultedProfile; ConsultedQuota])
        | None => ((allowed, reason, None), [ConsultedProfile; ConsultedQuota])
        end
    | Some _ => ((allowed, reason, err), [ConsultedProfile])
    end.

(** [Handle]. *)
Definition Handle (req : Request) : Response :=
  let '(allowed, reason, err) := (validatingPodFn req).1 in
  match err with
  | Some err => Errored StatusBadRequest err
  | None => ValidationResponse allowed reason
  end.
End Webhook.

(** The requests of [TestValidatingHandler] that the handler answers on
    its own ([gvr] builds the core-group resource). *)
Definition gvr (resource : string) : GroupVersionResource := mkGVR "" "v1" resource.
Definition request_not_a_pod : Request :=
  mkRequest "" (gvr "configmaps") Create [] [] "" "".
Definition request_pod_subresource : Request :=
  mkRequest "status" (gvr "pods") Create [] [] "" "".
Definition request_delete_no_old_object : Request :=
  mkRequest "" (gvr "pods") Delete [] [] "" "".
Definition request_create_pod : Request :=
  mkRequest "" (gvr "pods") Create [] [] "default" "pod1".

(** Validators for running the handler: the profile check admits
    everything, the quota plugin rejects the pods of namespace [full]. *)
Definition example_validators : PodValidators :=
  {| clusterColocationProfileValidatingPod _ := (true, "", None);
     ValidatePod req :=
       if bool_decide (Namespace req = "full") then Some "quota exceeded" else None |}.

(* ===================================================================== *)
(** ** Shapes of call traces *)
(* ===================================================================== *)

(** The calls of an update path that works on [name] with the sorted
    snapshot [g]: a sequence of attempts, each a read of [name], followed
    or not by an update that carries [g] as its device list. *)
Inductive UpdateTrace (name : string) (g : list DeviceInfo) : list Call → Prop :=
| UpdateTrace_nil : UpdateTrace name g []
| UpdateTrace_read rest :
    UpdateTrace name g rest → UpdateTrace name g (CallGet name :: rest)
| UpdateTrace_write d rest :
    Devices (Spec d) = g →
    UpdateTrace name g rest →
    UpdateTrace name g (CallGet name :: CallUpdate d :: rest).

(** The owner reference [createDevice] puts on a new resource. *)
Definition node_owner (n : Node) : OwnerReference :=
  {| APIVersion := "v1"; Kind := "Node";
     OwnerName := NodeName n; OwnerUID := NodeUID n;
     Controller := Some true; BlockOwnerDeletion := Some true |}.

(** A snapshot record with its health flag cleared. *)
Definition set_unhealthy (info : DeviceInfo) : DeviceInfo :=
  {| UUID := UUID info; Minor := Minor info; Type_ := Type_ info;
     Health := false; Resources := Resources info |}.

(* ===================================================================== *)
(** ** Predicates used in the statements *)
(* ===================================================================== *)

(** Ascending by minor, ties allowed: what a sort with [less] reaches. *)
Definition minor_le (a b : DeviceInfo) : Prop := Minor a ≤ Minor b.

(** The errors on which the retry helper runs the closure again. *)
Definition retriable (err : error) : bool :=
  match err with
  | Some e => IsConflict e || IsTooManyRequests e
  | None => false
  end.

(** Nothing to do: the stored list agrees with the snapshot once both are
    sorted, or nothing is stored and the snapshot is empty. *)
Definition in_sync (name : string) (g : list DeviceInfo)
    (st : gmap string StoredObject) : bool :=
  match st !! name with
  | Some o => DeepEqual (sorter g) (sorter (so_devices o))
  | None => bool_decide (length g = 0%nat)
  end.

(** *** The core as a transition system

    The two activities of the core interleave: the receiving loop of
    [gpuHealCheck] records an identifier, the metrics cache moves on, a
    reconciliation cycle runs.  These are all the operations of the core on
    the informer and the store. *)
Inductive CoreOp :=
| OpUnhealthy (d : string)
| OpMetrics (m : NodeResourceQueryResult)
| OpReport.

Definition core_step {St} `{!DeviceInterface St} (retries : nat)
    (σ : statesInformer * World St) (op : CoreOp) : statesInformer * World St :=
  match op with
  | OpUnhealthy d => (markUnhealthy σ.1 d, σ.2)
  | OpMetrics m =>
      ({| node := node σ.1; metricsCache := m; unhealthyGPU := unhealthyGPU σ.1 |}, σ.2)
  | OpReport => (σ.1, (reportDevice retries σ.1 σ.2).2)
  end.

Definition core_run {St} `{!DeviceInterface St} (retries : nat)
    (σ : statesInformer * World St) (ops : list CoreOp) : statesInformer * World St :=
  fold_left (core_step retries) ops σ.

(* ===================================================================== *)
(** ** Concrete nodes, metrics and stores used to run the model *)
(* ===================================================================== *)

Definition example_node : Node := mkNode "node-1" "uid-1".
Definition gpu_a : GPUMetric := mkGPUMetric "GPU-1" 0 16000000000.
Definition gpu_b : GPUMetric := mkGPUMetric "GPU-2" 1 16000000000.
Definition info_a : DeviceInfo := deviceInfoOf ∅ gpu_a.
Definition info_b : DeviceInfo := deviceInfoOf ∅ gpu_b.

(** The metrics report one healthy GPU. *)
Definition informer_one : statesInformer :=
  mkStatesInformer example_node (mkQueryResult None [gpu_a]) ∅.
(** The metrics report two GPUs, the higher minor first. *)
Definition informer_two : statesInformer :=
  mkStatesInformer example_node (mkQueryResult None [gpu_b; gpu_a]) ∅.
(** The metrics query fails. *)
Definition informer_outage : statesInformer :=
  mkStatesInformer example_node (mkQueryResult (Some "no metric in the window") []) ∅.

(** A store that holds nothing yet. *)
Definition store_empty : gmap string StoredObject := ∅.

(** A store that already holds the inventory of [informer_one]. *)
Definition store_one : gmap string StoredObject :=
  {[ "node-1" := mkStoredObject 1 [] [info_a] ]}.
Definition store_two : gmap string StoredObject :=
  {[ "node-1" := mkStoredObject 1 [] [info_a; info_b] ]}.

(** Two records that share a minor index. *)
Definition tie_a : DeviceInfo := mkDeviceInfo "GPU-A" 0 GPU true ∅.
Definition tie_b : DeviceInfo := mkDeviceInfo "GPU-B" 0 GPU true ∅.
Definition store_tied : gmap string StoredObject :=
  {[ "node-1" := mkStoredObject 1 [] [tie_b; tie_a] ]}.

(** Three boards: one that registers, one too old for fault events, one
    whose registration fails for another reason; and the handle of an
    event whose device resolves to the empty identifier. *)
Definition board_ok : Board := mkBoard "GPU-1" SUCCESS SUCCESS.
Definition board_old : Board := mkBoard "GPU-2" SUCCESS ERROR_NOT_SUPPORTED.
Definition board_flaky : Board := mkBoard "GPU-3" SUCCESS ERROR_UNKNOWN.
Definition board_anonymous : Board := mkBoard "" SUCCESS SUCCESS.
Definition example_nvml : Nvml Board := boards_nvml [board_flaky; board_old; board_ok].

(** A scripted store whose first update is rejected with a conflict: the
    resource is read at version 1, then again at version 2, and the second
    update goes through. *)
Definition stale_device : Device := device_of "node-1" (mkStoredObject 1 [] []).
Definition fresh_device : Device := device_of "node-1" (mkStoredObject 2 [] [info_b]).
Definition conflict_script : list Reply :=
  [ReplyGet (inl stale_device); ReplyWrite (Some StatusReasonConflict);
   ReplyGet (inl fresh_device); ReplyWrite None].

(** A board whose identifier lookup fails, a library that enumerates it
    next to a working one, and a library without boards. *)
Definition board_mute : Board := mkBoard "" ERROR_UNKNOWN SUCCESS.
Definition nvml_with_mute : Nvml Board := boards_nvml [board_ok; board_mute].
Definition nvml_without_boards : Nvml Board := boards_nvml [].

(** Is the handle of [d] found, and is [d] too old for fault events? *)
Definition handle_found {Handle : Type} `{!Nvml Handle} (d : string) : Prop :=
  (DeviceGetHandleByUUID d).2 = SUCCESS.
Definition registration_unsupported {Handle : Type} `{!Nvml Handle} (d : string) : Prop :=
  handle_found d ∧
  DeviceRegisterEvents (DeviceGetHandleByUUID d).1 EventTypeXidCriticalError
    = ERROR_NOT_SUPPORTED.

(* ===================================================================== *)
(** ** Facts about the sort *)
(* ===================================================================== *)

#[global] Instance minor_le_trans : Transitive minor_le.
Proof. unfold minor_le. intros a b c. lia. Qed.

Lemma less_false a b : less a b = false ↔ minor_le b a.
Proof. unfold less, minor_le. rewrite Z.ltb_ge. done. Qed.

Lemma less_true a b : less a b = true ↔ Minor a < Minor b.
Proof. unfold less. apply Z.ltb_lt. Qed.

Lemma sift_perm x before : sift x before ≡ₚ x :: before.
Proof.
  induction before as [|y rest IH]; simpl; [done|].
  destruct (less x y); [|done].
  rewrite IH. apply Permutation_swap.
Qed.

Lemma sift_sorted x before :
  StronglySorted (flip minor_le) before →
  StronglySorted (flip minor_le) (sift x before).
Proof.
  induction 1 as [|y rest Hrest IH Hy]; simpl.
  { repeat constructor. }
  destruct (less x y) eqn:Hxy.
  - constructor; [done|].
    rewrite sift_perm. constructor; [|done].
    apply less_true in Hxy. unfold flip, minor_le. lia.
  - apply less_false in Hxy.
    constructor; [by constructor|].
    constructor; [done|].
    eapply Forall_impl; [exact Hy|].
    intros z Hz. unfold flip in *. by etrans.
Qed.

Lemma fold_sift_perm l acc :
  fold_left (λ before x, sift x before) l acc ≡ₚ l ++ acc.
Proof.
  revert acc. induction l as [|x l IH]; intros acc; simpl; [done|].
  rewrite IH, sift_perm. by rewrite Permutation_middle.
Qed.

Lemma fold_sift_sorted l acc :
  StronglySorted (flip minor_le) acc →
  StronglySorted (flip minor_le) (fold_left (λ before x, sift x before) l acc).
Proof.
  revert acc. induction l as [|x l IH]; intros acc Hacc; simpl; [done|].
  by apply IH, sift_sorted.
Qed.

Lemma StronglySorted_reverse {A} (R : relation A) (l : list A) :
  StronglySorted R l → StronglySorted (flip R) (reverse l).
Proof.
  induction 1 as [|x l Hl IH Hx]; [constructor|].
  rewrite reverse_cons. apply StronglySorted_app_2; [|done|repeat constructor].
  intros x1 x2 Hx1 Hx2. apply list_elem_of_singleton in Hx2 as ->.
  rewrite elem_of_reverse in Hx1. rewrite Forall_forall in Hx.
  unfold flip. by apply Hx.
Qed.

Lemma sort_Slice_perm l : sort_Slice l ≡ₚ l.
Proof.
  unfold sort_Slice. rewrite reverse_Permutation, fold_sift_perm.
  by rewrite app_nil_r.
Qed.

Lemma sort_Slice_sorted l : StronglySorted minor_le (sort_Slice l).
Proof.
  unfold sort_Slice.
  apply (StronglySorted_reverse (flip minor_le)), fold_sift_sorted. constructor.
Qed.

(** The inner loop moves nothing when the element is already in place. *)
Lemma fold_sift_in_order l acc :
  StronglySorted minor_le l →
  (∀ x y, x ∈ l → y ∈ acc → minor_le y x) →
  fold_left (λ before x, sift x before) l acc = reverse l ++ acc.
Proof.
  intros Hl. revert acc.
  induction Hl as [|x l Hl IH Hx]; intros acc Hacc; simpl; [done|].
  assert (sift x acc = x :: acc) as ->.
  { destruct acc as [|y rest]; simpl; [done|].
    assert (minor_le y x) as Hyx by (apply Hacc; by left).
    apply less_false in Hyx. by rewrite Hyx. }
  rewrite IH, reverse_cons, <-app_assoc; [done|].
  intros z y Hz Hy. apply elem_of_cons in Hy as [->|Hy].
  - rewrite Forall_forall in Hx. by apply Hx.
  - apply Hacc; [by right|done].
Qed.

Lemma sort_Slice_in_order l : StronglySorted minor_le l → sort_Slice l = l.
Proof.
  intros Hl. unfold sort_Slice.
  rewrite fold_sift_in_order; [|done|by intros ?? _ ?%elem_of_nil].
  by rewrite app_nil_r, reverse_involutive.
Qed.

Lemma sorter_idempotent l : sorter (sorter l) = sorter l.
Proof. apply sort_Slice_in_order, sort_Slice_sorted. Qed.

Lemma Minor_inj_on l x y :
  NoDup (Minor <$> l) → x ∈ l → y ∈ l → Minor x = Minor y → x = y.
Proof.
  induction l as [|z l IH]; simpl; [by intros _ ?%elem_of_nil|].
  rewrite NoDup_cons. intros [Hz Hl] Hx Hy Heq.
  apply elem_of_cons in Hx as [->|Hx], Hy as [->|Hy]; [done| | |by apply IH].
  - destruct Hz. rewrite Heq. by apply list_elem_of_fmap_2.
  - destruct Hz. rewrite <-Heq. by apply list_elem_of_fmap_2.
Qed.

(** With pairwise distinct minors there is one sorted arrangement, so any
    correct sort returns what [sorter] returns. *)
Lemma sorter_unique l sorted :
  NoDup (Minor <$> l) → sorted ≡ₚ l → StronglySorted minor_le sorted →
  sorted = sorter l.
Proof.
  intros Hnd Hperm Hsorted.
  apply (StronglySorted_unique_strong minor_le); [|done|apply sort_Slice_sorted|].
  - intros x1 x2 Hx1 Hx2 H12 H21.
    apply (Minor_inj_on l); [done|by rewrite <-Hperm| |].
    + unfold sorter in Hx2. by rewrite sort_Slice_perm in Hx2.
    + unfold minor_le in *. lia.
  - unfold sorter. by rewrite sort_Slice_perm.
Qed.

Lemma sorter_perm_eq l1 l2 :
  NoDup (Minor <$> l1) → l1 ≡ₚ l2 → sorter l1 = sorter l2.
Proof.
  intros Hnd Hperm. apply sorter_unique.
  - by rewrite <-Hperm.
  - unfold sorter. by rewrite sort_Slice_perm.
  - apply sort_Slice_sorted.
Qed.

(** The sort on three records, and on two records that share a minor. *)
Example sorter_three :
  Minor <$> sorter [mkDeviceInfo "c" 2 GPU true ∅; mkDeviceInfo "a" 0 GPU true ∅;
                    mkDeviceInfo "b" 1 GPU true ∅] = [0; 1; 2].
Proof. reflexivity. Qed.

Example sorter_keeps_ties : sorter [tie_b; tie_a] = [tie_b; tie_a].
Proof. reflexivity. Qed.

(* ===================================================================== *)
(** ** Facts about the reconciler, for any client *)
(* ===================================================================== *)

Section ReconcilerFacts.
Context {St : Type} `{!DeviceInterface St}.

(** An attempt that ends without a conflict or a rate limit is final. *)
Lemma retry_settled retries (fn : M St error) w r w' :
  fn w = (r, w') → retriable r = false →
  RetryOnConflictOrTooManyRequests retries fn w = (r, w').
Proof.
  intros Hfn Hr.
  destruct retries; simpl; unfold bind; rewrite Hfn;
    destruct r as [e|]; simpl in *; try rewrite Hr; done.
Qed.

(** The builder reads the informer only: it leaves the store and the
    recorded calls alone, and its result does not depend on the world. *)
Lemma buildGPUDevice_world s (w : World St) :
  w_store (buildGPUDevice s w).2 = w_store w ∧
  w_calls (buildGPUDevice s w).2 = w_calls w.
Proof.
  unfold buildGPUDevice, bind, klog, ret.
  destruct (Error _); [done|]. case_bool_decide; done.
Qed.

Lemma buildGPUDevice_result {St'} s (w : World St) (w' : World St') :
  (buildGPUDevice s w).1 = (buildGPUDevice s w').1.
Proof.
  unfold buildGPUDevice, bind, klog, ret.
  destruct (Error _); [done|]. case_bool_decide; done.
Qed.

Lemma attempt_get_error name g w e st' :
  client_Get name (w_store w) = (inr e, st') →
  updateDevice_attempt name g w =
    (Some e, mkWorld st' (w_calls w ++ [CallGet name]) (w_logs w)).
Proof.
  intros Hget. unfold updateDevice_attempt, bind, deviceClient_Get.
  by rewrite Hget.
Qed.

Lemma attempt_unchanged name g w dev st' :
  client_Get name (w_store w) = (inl dev, st') →
  g = sorter (Devices (Spec dev)) →
  updateDevice_attempt name g w =
    (None, mkWorld st' (w_calls w ++ [CallGet name])
             (w_logs w ++ [Infof 4 "Device %s has not changed and does not need to be updated"])).
Proof.
  intros Hget Heq. unfold updateDevice_attempt, bind, deviceClient_Get.
  rewrite Hget. unfold DeepEqual. by rewrite bool_decide_eq_true_2.
Qed.

Lemma attempt_changed name g w dev st' :
  client_Get name (w_store w) = (inl dev, st') →
  g ≠ sorter (Devices (Spec dev)) →
  updateDevice_attempt name g w =
    deviceClient_Update {| Meta := Meta dev; Spec := {| Devices := g |} |}
      (mkWorld st' (w_calls w ++ [CallGet name]) (w_logs w)).
Proof.
  intros Hget Hne. unfold updateDevice_attempt, bind, deviceClient_Get.
  rewrite Hget. unfold DeepEqual. by rewrite bool_decide_eq_false_2.
Qed.

(** The update path when the stored list already agrees with the snapshot
    once both are sorted: one read, no write, no error. *)
Lemma updateDevice_unchanged retries name g w dev st' :
  client_Get name (w_store w) = (inl dev, st') →
  sorter (Devices (Spec dev)) = sorter g →
  updateDevice retries name g w =
    ((None, sorter g),
     mkWorld st' (w_calls w ++ [CallGet name])
       (w_logs w ++ [Infof 4 "Device %s has not changed and does not need to be updated"])).
Proof.
  intros Hget Heq. unfold updateDevice, bind, ret.
  pose proof (attempt_unchanged name (sorter g) w dev st' Hget (eq_sym Heq)) as Ha.
  by rewrite (retry_settled _ _ _ _ _ Ha).
Qed.

Lemma updateDevice_not_found retries name g w st' :
  client_Get name (w_store w) = (inr StatusReasonNotFound, st') →
  updateDevice retries name g w =
    ((Some StatusReasonNotFound, sorter g),
     mkWorld st' (w_calls w ++ [CallGet name]) (w_logs w)).
Proof.
  intros Hget. unfold updateDevice, bind, ret.
  pose proof (attempt_get_error name (sorter g) w _ st' Hget) as Ha.
  by rewrite (retry_settled _ _ _ _ _ Ha).
Qed.

(** [reportDevice] once the builder and the update path have run. *)
Lemma reportDevice_unfold retries s (w : World St) :
  reportDevice retries s w =
    let '(g, w1) := buildGPUDevice s w in
    let '(r, w2) := updateDevice retries (NodeName (node s)) g w1 in
    match r.1 with
    | None => klog (Infof 4 "successfully update Device %s") w2
    | Some err =>
        if negb (IsNotFound err) then
          klog (Errorf "Failed to updateDevice %s, err: %v") w2
        else if bool_decide (length r.2 = 0%nat) then (tt, w2)
        else
          let '(err, w3) := createDevice (node s) r.2 w2 in
          match err with
          | None => klog (Infof 4 "successfully create Device %s") w3
          | Some _ => klog (Errorf "Failed to create Device %s, err: %v") w3
          end
    end.
Proof.
  unfold reportDevice, bind, ret, GetNode.
  destruct (buildGPUDevice s w) as [g w1].
  destruct (updateDevice _ _ _ _) as [[err g'] w2]; simpl.
  destruct err as [e|]; [|done].
  destruct (negb _); [done|]. case_bool_decide; [done|].
  destruct (createDevice _ _ _) as [[e'|] w3]; done.
Qed.

(** The update path never creates: it only reads and updates. *)
Lemma attempt_calls name g (w : World St) :
  ∃ new, w_calls (updateDevice_attempt name g w).2 = w_calls w ++ new ∧
         Forall (λ c, is_create c = false) new.
Proof.
  unfold updateDevice_attempt, bind, deviceClient_Get, deviceClient_Update, klog, ret.
  destruct (client_Get name (w_store w)) as [[dev|e] st']; simpl.
  - destruct (DeepEqual _ _); simpl.
    + exists [CallGet name]. split; [done|]. by repeat constructor.
    + destruct (client_Update _ _) as [r st'']; simpl.
      eexists [CallGet name; CallUpdate _]. rewrite <-app_assoc.
      split; [done|]. by repeat constructor.
  - exists [CallGet name]. split; [done|]. by repeat constructor.
Qed.

Lemma retry_calls (P : Call → Prop) retries (fn : M St error) :
  (∀ w, ∃ new, w_calls (fn w).2 = w_calls w ++ new ∧ Forall P new) →
  ∀ w, ∃ new, w_calls (RetryOnConflictOrTooManyRequests retries fn w).2
              = w_calls w ++ new ∧ Forall P new.
Proof.
  intros Hfn. induction retries as [|n IH]; intros w; simpl; unfold bind, ret.
  - destruct (Hfn w) as (new & Hc & Hnew).
    destruct (fn w) as [[e|] w1]; simpl in *; [|by eauto].
    destruct (_ || _); simpl; by eauto.
  - destruct (Hfn w) as (new & Hc & Hnew).
    destruct (fn w) as [[e|] w1]; simpl in *; [|by eauto].
    destruct (_ || _); simpl; [|by eauto].
    destruct (IH w1) as (new' & Hc' & Hnew').
    exists (new ++ new'). rewrite Hc', Hc, <-app_assoc.
    split; [done|]. by apply Forall_app.
Qed.

(** X1.  With an empty snapshot the cycle never calls [Create], whatever
    the client answers and however the update path ends: the guard before
    [createDevice] returns first. *)
Lemma reportDevice_empty_never_creates retries s (w : World St) :
  (buildGPUDevice s w).1 = [] →
  ∃ new, w_calls (reportDevice retries s w).2 = w_calls w ++ new ∧
         Forall (λ c, is_create c = false) new.
Proof.
  intros Hempty. rewrite reportDevice_unfold.
  pose proof (buildGPUDevice_world s w) as [_ Hc].
  destruct (buildGPUDevice s w) as [g w1]; simpl in *. subst g.
  unfold updateDevice, bind, ret.
  destruct (retry_calls (λ c, is_create c = false) retries
              (updateDevice_attempt (NodeName (node s)) (sorter [])) 
              (attempt_calls _ _) w1) as (new & Hnew & Hall).
  destruct (RetryOnConflictOrTooManyRequests _ _ _) as [err w2]; simpl in *.
  rewrite Hc in Hnew.
  destruct err as [e|]; simpl; [|by eauto].
  destruct (negb _); simpl; by eauto.
Qed.
End ReconcilerFacts.

(* ===================================================================== *)
(** ** The reconciler against the in-memory object store *)
(* ===================================================================== *)

Lemma writes_cons c cs :
  writes (c :: cs) = if is_write c then c :: writes cs else writes cs.
Proof.
  unfold writes. destruct (is_write c) eqn:Hc.
  - by rewrite filter_cons_True.
  - rewrite filter_cons_False; [done|]. by rewrite Hc.
Qed.

Lemma writes_app cs1 cs2 : writes (cs1 ++ cs2) = writes cs1 ++ writes cs2.
Proof. apply filter_app. Qed.

Lemma sorter_length l : length (sorter l) = length l.
Proof. unfold sorter. by rewrite sort_Slice_perm. Qed.

Lemma updateDevice_object_store_changed retries name g (o : StoredObject) st cs ls :
  st !! name = Some o →
  sorter g ≠ sorter (so_devices o) →
  updateDevice retries name g (mkWorld st cs ls) =
    ((None, sorter g),
     mkWorld (<[name := mkStoredObject (so_version o + 1) (so_owners o) (sorter g)]> st)
       (cs ++ [CallGet name] ++
          [CallUpdate {| Meta := Meta (device_of name o);
                         Spec := {| Devices := sorter g |} |}])
       ls).
Proof.
  intros Hst Hne. unfold updateDevice, bind, ret.
  assert (updateDevice_attempt name (sorter g) (mkWorld st cs ls) =
          (None, mkWorld (<[name := mkStoredObject (so_version o + 1) (so_owners o) (sorter g)]> st)
                   (cs ++ [CallGet name] ++
                      [CallUpdate {| Meta := Meta (device_of name o);
                                     Spec := {| Devices := sorter g |} |}])
                   ls)) as Ha.
  { rewrite (attempt_changed name (sorter g) _ (device_of name o) st).
    - unfold deviceClient_Update; simpl. unfold store_Update; simpl.
      rewrite Hst. rewrite bool_decide_eq_true_2 by done.
      by rewrite <-app_assoc.
    - simpl. unfold store_Get. by rewrite Hst.
    - done. }
  by rewrite (retry_settled _ _ _ _ _ Ha).
Qed.

Lemma reportDevice_object_store retries s st cs ls :
  let name := NodeName (node s) in
  let g := (buildGPUDevice s (mkWorld st cs ls)).1 in
  let w' := (reportDevice retries s (mkWorld st cs ls)).2 in
  (in_sync name g st = true →
     w_store w' = st ∧ w_calls w' = cs ++ [CallGet name]) ∧
  (in_sync name g st = false →
     in_sync name g (w_store w') = true ∧
     ∃ c, is_write c = true ∧ w_calls w' = cs ++ [CallGet name; c]).
Proof.
  intros name g w'. subst w' g. rewrite reportDevice_unfold.
  pose proof (buildGPUDevice_world s (mkWorld st cs ls)) as [Hs Hc].
  destruct (buildGPUDevice s (mkWorld st cs ls)) as [g [st1 cs1 ls1]]; simpl in *.
  subst st1 cs1. fold name. unfold in_sync.
  destruct (st !! name) as [o|] eqn:Hst.
  - destruct (decide (sorter g = sorter (so_devices o))) as [Heq|Hne].
    + rewrite (updateDevice_unchanged retries name g _ (device_of name o) st);
        [|by simpl; unfold store_Get; rewrite Hst|done].
      simpl. unfold DeepEqual. rewrite bool_decide_eq_true_2 by done.
      split; [done|]. intros; discriminate.
    + rewrite (updateDevice_object_store_changed retries name g o) by done.
      simpl. unfold DeepEqual. rewrite bool_decide_eq_false_2 by done.
      split; [intros; discriminate|]. intros _. split.
      * rewrite lookup_insert_eq; simpl. rewrite sorter_idempotent.
        by apply bool_decide_eq_true_2.
      * eexists. split; [|reflexivity]. done.
  - rewrite (updateDevice_not_found retries name g _ st);
      [|by simpl; unfold store_Get; rewrite Hst].
    simpl. rewrite sorter_length.
    case_bool_decide as Hlen; simpl.
    + split; [done|]. intros; discriminate.
    + split; [intros; discriminate|]. intros _.
      unfold createDevice, deviceClient_Create; simpl. fold name.
      unfold store_Create; simpl. fold name. rewrite Hst; simpl. split.
      * rewrite lookup_insert_eq; simpl. rewrite sorter_idempotent.
        by apply bool_decide_eq_true_2.
      * eexists. split; [|by rewrite <-app_assoc]. done.
Qed.

(* ===================================================================== *)
(** ** The snapshot the builder returns *)
(* ===================================================================== *)

(** C10.  When the metrics query succeeds, the builder returns one record
    per reported device, in the order of the report; the record carries
    the device's identifier and minor index, the kind GPU, a health flag
    that is true exactly when the identifier is absent from the unhealthy
    set, and a capacity map of exactly three entries: core share 100,
    memory bytes equal to the metric's total, memory ratio 100. *)
Theorem buildGPUDevice_records {St} (s : statesInformer) (w : World St) :
  Error (GetNodeResourceMetric s) = None →
  let g := (buildGPUDevice s w).1 in
  length g = length (GPUs (GetNodeResourceMetric s)) ∧
  ∀ (i : nat) (gpu : GPUMetric),
    GPUs (GetNodeResourceMetric s) !! i = Some gpu →
    ∃ info : DeviceInfo,
      g !! i = Some info ∧
      UUID info = DeviceUUID gpu ∧
      Minor info = GPUMinor gpu ∧
      Type_ info = GPU ∧
      (Health info = true ↔ DeviceUUID gpu ∉ unhealthyGPU s) ∧
      Resources info !! GPUCore = Some 100 ∧
      Resources info !! GPUMemory = Some (MemoryTotal gpu) ∧
      Resources info !! GPUMemoryRatio = Some 100 ∧
      size (Resources info) = 3%nat.
Proof.
  intros Herr g. subst g. unfold buildGPUDevice, bind, klog, ret.
  rewrite Herr.
  assert (∀ i gpu, GPUs (GetNodeResourceMetric s) !! i = Some gpu →
     ∃ info, map (deviceInfoOf (unhealthyGPU s)) (GPUs (GetNodeResourceMetric s)) !! i
               = Some info ∧
       UUID info = DeviceUUID gpu ∧ Minor info = GPUMinor gpu ∧ Type_ info = GPU ∧
       (Health info = true ↔ DeviceUUID gpu ∉ unhealthyGPU s) ∧
       Resources info !! GPUCore = Some 100 ∧
       Resources info !! GPUMemory = Some (MemoryTotal gpu) ∧
       Resources info !! GPUMemoryRatio = Some 100 ∧
       size (Resources info) = 3%nat) as Hrec.
  { intros i gpu Hi. exists (deviceInfoOf (unhealthyGPU s) gpu).
    split.
    { change (map ?f ?l) with (f <$> l). by rewrite list_lookup_fmap, Hi. }
    repeat split; simpl; try done.
    all: by destruct (decide _). }
  case_bool_decide as Hlen; simpl.
  - split; [done|]. intros i gpu Hi.
    apply length_zero_iff_nil in Hlen. rewrite Hlen in Hi. done.
  - split; [by rewrite length_map|done].
Qed.

Lemma buildGPUDevice_records_witness :
  let g := (buildGPUDevice informer_one (initial_world store_one)).1 in
  length g = 1%nat ∧
  ∃ info : DeviceInfo,
    g !! 0%nat = Some info ∧
    UUID info = "GPU-1" ∧ Minor info = 0 ∧ Type_ info = GPU ∧
    (Health info = true ↔ "GPU-1" ∉ (∅ : gset string)) ∧
    Resources info !! GPUCore = Some 100 ∧
    Resources info !! GPUMemory = Some 16000000000 ∧
    Resources info !! GPUMemoryRatio = Some 100 ∧
    size (Resources info) = 3%nat.
Proof.
  destruct (buildGPUDevice_records informer_one (initial_world store_one) eq_refl)
    as [Hlen Hrec].
  split; [exact Hlen|].
  exact (Hrec 0%nat gpu_a eq_refl).
Defined.

(** The scenario of one device [GPU-1] with minor 0 and 16e9 bytes: the
    snapshot holds one healthy record; once [GPU-1] has been recorded as
    unhealthy the next snapshot differs in the health flag only. *)
Example one_device_scenario :
  (buildGPUDevice informer_one (initial_world store_empty)).1 =
    [ {| UUID := "GPU-1"; Minor := 0; Type_ := GPU; Health := true;
         Resources := {[ GPUCore := 100; GPUMemory := 16000000000;
                         GPUMemoryRatio := 100 ]} |} ] ∧
  (buildGPUDevice (markUnhealthy informer_one "GPU-1") (initial_world store_empty)).1 =
    [ {| UUID := "GPU-1"; Minor := 0; Type_ := GPU; Health := false;
         Resources := {[ GPUCore := 100; GPUMemory := 16000000000;
                         GPUMemoryRatio := 100 ]} |} ].
Proof. vm_compute. done. Qed.

(* ===================================================================== *)
(** ** The unhealthy set only grows *)
(* ===================================================================== *)

Lemma core_step_unhealthy_mono {St} `{!DeviceInterface St} retries
    (σ : statesInformer * World St) op :
  unhealthyGPU σ.1 ⊆ unhealthyGPU (core_step retries σ op).1.
Proof. destruct op; simpl; set_solver. Qed.

Lemma core_run_unhealthy_mono {St} `{!DeviceInterface St} retries ops
    (σ : statesInformer * World St) :
  unhealthyGPU σ.1 ⊆ unhealthyGPU (core_run retries σ ops).1.
Proof.
  revert σ. induction ops as [|op ops IH]; intros σ; simpl; [done|].
  etrans; [apply (core_step_unhealthy_mono retries σ op)|apply IH].
Qed.

Lemma buildGPUDevice_elem {St} s (w : World St) info :
  info ∈ (buildGPUDevice s w).1 →
  ∃ gpu, gpu ∈ GPUs (GetNodeResourceMetric s) ∧ info = deviceInfoOf (unhealthyGPU s) gpu.
Proof.
  unfold buildGPUDevice, bind, klog, ret.
  destruct (Error _); simpl; [by intros ?%elem_of_nil|].
  case_bool_decide; simpl; [by intros ?%elem_of_nil|].
  change (map ?f ?l) with (f <$> l). intros (gpu & -> & Hin)%list_elem_of_fmap.
  eauto.
Qed.

(** C4.  Once an identifier is in the unhealthy set it stays there through
    every later sequence of operations of the core (identifiers recorded
    for any device, changes of the metrics, reconciliation cycles).  Every
    snapshot built afterwards reports it unhealthy: each record of that
    identifier has healthy = false, and whenever the metrics query
    succeeds and reports a device with that identifier, the snapshot holds
    a record for it, at the position of the report, with that identifier,
    the reported minor index and healthy = false. *)
Theorem unhealthy_is_permanent {St} `{!DeviceInterface St} (retries : nat)
    (σ : statesInformer * World St) (ops : list CoreOp) (d : string) :
  d ∈ unhealthyGPU σ.1 →
  let σ' := core_run retries σ ops in
  d ∈ unhealthyGPU σ'.1 ∧
  (∀ (w : World St) (info : DeviceInfo),
     info ∈ (buildGPUDevice σ'.1 w).1 → UUID info = d → Health info = false) ∧
  (∀ (w : World St) (i : nat) (gpu : GPUMetric),
     Error (GetNodeResourceMetric σ'.1) = None →
     GPUs (GetNodeResourceMetric σ'.1) !! i = Some gpu →
     DeviceUUID gpu = d →
     ∃ info : DeviceInfo,
       (buildGPUDevice σ'.1 w).1 !! i = Some info ∧
       UUID info = d ∧ Minor info = GPUMinor gpu ∧ Health info = false).
Proof.
  intros Hd σ'.
  assert (d ∈ unhealthyGPU σ'.1) as Hd'.
  { by apply (core_run_unhealthy_mono retries ops σ). }
  split_and!; [done| |].
  - intros w info (gpu & _ & ->)%buildGPUDevice_elem; simpl. intros ->.
    by rewrite decide_True.
  - intros w i gpu Herr Hi Hgpu.
    exists (deviceInfoOf (unhealthyGPU σ'.1) gpu).
    unfold buildGPUDevice, bind, klog, ret. rewrite Herr.
    rewrite bool_decide_eq_false_2.
    + simpl. change (map ?f ?l) with (f <$> l).
      rewrite list_lookup_fmap, Hi; simpl.
      split_and!; [done|done|done|].
      rewrite decide_True; [done|]. by rewrite Hgpu.
    + intros Hlen%length_zero_iff_nil. by rewrite Hlen in Hi.
Qed.

Lemma unhealthy_is_permanent_witness :
  let σ := (markUnhealthy informer_one "GPU-1", initial_world store_one) in
  let σ' := core_run 3 σ [OpReport; OpUnhealthy "GPU-2";
                          OpMetrics (mkQueryResult None [gpu_b; gpu_a]); OpReport] in
  "GPU-1" ∈ unhealthyGPU σ'.1 ∧
  (∀ (w : World (gmap string StoredObject)) (info : DeviceInfo),
     info ∈ (buildGPUDevice σ'.1 w).1 → UUID info = "GPU-1" → Health info = false) ∧
  (∀ (w : World (gmap string StoredObject)) (i : nat) (gpu : GPUMetric),
     Error (GetNodeResourceMetric σ'.1) = None →
     GPUs (GetNodeResourceMetric σ'.1) !! i = Some gpu →
     DeviceUUID gpu = "GPU-1" →
     ∃ info : DeviceInfo,
       (buildGPUDevice σ'.1 w).1 !! i = Some info ∧
       UUID info = "GPU-1" ∧ Minor info = GPUMinor gpu ∧ Health info = false).
Proof.
  apply (unhealthy_is_permanent 3
           (markUnhealthy informer_one "GPU-1", initial_world store_one)).
  simpl. set_solver.
Defined.

(** After such a run the snapshot does hold the record of [GPU-1], with
    healthy = false, next to the healthy record of a device nothing was
    recorded for. *)
Example unhealthy_device_is_reported :
  let σ := core_run 3 (markUnhealthy informer_one "GPU-1", initial_world store_one)
             [OpReport; OpMetrics (mkQueryResult None [gpu_b; gpu_a]);
              OpUnhealthy "GPU-3"; OpReport] in
  (λ info, (UUID info, Health info)) <$> (buildGPUDevice σ.1 (initial_world store_empty)).1
  = [("GPU-2", true); ("GPU-1", false)].
Proof. vm_compute. done. Qed.

(* ===================================================================== *)
(** ** Reconciliation cycles *)
(* ===================================================================== *)

(** C1 (the code departs from it).  A metrics outage against a store that
    holds a one-device inventory: the cycle issues an [Update] that
    replaces the stored device list by the empty one. *)
Theorem reportDevice_outage_wipes_inventory :
  let w' := (reportDevice 3 informer_outage (initial_world store_one)).2 in
  writes (w_calls w') =
    [CallUpdate {| Meta := {| Name := "node-1"; ResourceVersion := 1;
                              OwnerReferences := [] |};
                   Spec := {| Devices := [] |} |}] ∧
  so_devices <$> (w_store w' !! "node-1") = Some [] ∧
  so_devices <$> (store_one !! "node-1") = Some [info_a].
Proof. vm_compute. done. Qed.




(** C6 (as amended).  [reportDevice] hands nothing back to its caller.
    When the update path ends with an error other than not-found, the
    cycle ends there: the result is the unit value and the only trace of
    the error is one error line in the log.  When the update path ends
    with not-found, the snapshot is not empty and the create path fails,
    the outcome is the same, with the create failure logged. *)
Theorem reportDevice_swallows_store_errors {St} `{!DeviceInterface St}
    (retries : nat) (s : statesInformer) (w w1 w2 : World St)
    (g g' : list DeviceInfo) (e : StatusReason) :
  buildGPUDevice s w = (g, w1) →
  updateDevice retries (NodeName (node s)) g w1 = ((Some e, g'), w2) →
  (IsNotFound e = false →
     reportDevice retries s w =
       (tt, mkWorld (w_store w2) (w_calls w2)
              (w_logs w2 ++ [Errorf "Failed to updateDevice %s, err: %v"]))) ∧
  (IsNotFound e = true → g' ≠ [] →
     ∀ (e' : StatusReason) (w3 : World St),
       createDevice (node s) g' w2 = (Some e', w3) →
       reportDevice retries s w =
         (tt, mkWorld (w_store w3) (w_calls w3)
                (w_logs w3 ++ [Errorf "Failed to create Device %s, err: %v"]))).
Proof.
  intros Hb Hu. rewrite reportDevice_unfold, Hb, Hu. simpl. split.
  - intros ->. done.
  - intros -> Hne e' w3 Hc. simpl.
    rewrite bool_decide_eq_false_2 by (by destruct g'). by rewrite Hc.
Qed.

Lemma reportDevice_swallows_store_errors_witness :
  (IsNotFound StatusReasonForbidden = false →
     reportDevice 3 informer_one
       (initial_world [ReplyGet (inr StatusReasonForbidden)]) =
       (tt, mkWorld [] [CallGet "node-1"]
              ([] ++ [Errorf "Failed to updateDevice %s, err: %v"]))) ∧
  (IsNotFound StatusReasonForbidden = true → [info_a] ≠ [] →
     ∀ (e' : StatusReason) (w3 : World (list Reply)),
       createDevice example_node [info_a] (mkWorld [] [CallGet "node-1"] []) = (Some e', w3) →
       reportDevice 3 informer_one
         (initial_world [ReplyGet (inr StatusReasonForbidden)]) =
         (tt, mkWorld (w_store w3) (w_calls w3)
                (w_logs w3 ++ [Errorf "Failed to create Device %s, err: %v"]))).
Proof.
  apply (reportDevice_swallows_store_errors 3 informer_one
           (initial_world [ReplyGet (inr StatusReasonForbidden)])
           (initial_world [ReplyGet (inr StatusReasonForbidden)])
           (mkWorld [] [CallGet "node-1"] []) [info_a] [info_a]
           StatusReasonForbidden).
  - reflexivity.
  - vm_compute. reflexivity.
Defined.

(** C6, the input at which the claim as written fails: the store refuses
    the read (forbidden).  The caller gets the same result as from a cycle
    in which the store answered; the error only reaches the log. *)
Lemma reportDevice_forbidden_not_returned :
  let failed := reportDevice 3 informer_one
                  (initial_world [ReplyGet (inr StatusReasonForbidden)]) in
  let fine := reportDevice 3 informer_one (initial_world store_one) in
  failed.1 = fine.1 ∧
  w_calls failed.2 = [CallGet "node-1"] ∧
  w_logs failed.2 = [Errorf "Failed to updateDevice %s, err: %v"] ∧
  w_logs fine.2 = [Infof 4 "Device %s has not changed and does not need to be updated";
                   Infof 4 "successfully update Device %s"].
Proof. vm_compute. done. Qed.

(** C7 (as amended).  When the update path ends with not-found, the
    snapshot is not empty and the create fails because the resource
    already exists, the cycle ends with that failure logged: the failed
    create is the last call made on the store, so the update path is not
    entered again in that cycle. *)
Theorem create_race_ends_cycle {St} `{!DeviceInterface St}
    (retries : nat) (s : statesInformer) (w w1 w2 w3 : World St)
    (g g' : list DeviceInfo) :
  buildGPUDevice s w = (g, w1) →
  updateDevice retries (NodeName (node s)) g w1 =
    ((Some StatusReasonNotFound, g'), w2) →
  g' ≠ [] →
  createDevice (node s) g' w2 = (Some StatusReasonAlreadyExists, w3) →
  let w' := (reportDevice retries s w).2 in
  w_store w' = w_store w3 ∧
  (∃ d : Device, Devices (Spec d) = g' ∧ w_calls w' = w_calls w2 ++ [CallCreate d]) ∧
  w_logs w' = w_logs w3 ++ [Errorf "Failed to create Device %s, err: %v"].
Proof.
  intros Hb Hu Hne Hc w'. subst w'.
  rewrite reportDevice_unfold, Hb, Hu. simpl.
  rewrite bool_decide_eq_false_2 by (by destruct g'). rewrite Hc. simpl.
  split_and!; [done| |done].
  unfold createDevice, deviceClient_Create in Hc.
  destruct (client_Create _ _) as [r st3]. inversion Hc; subst; simpl.
  eexists; split; [|reflexivity]. done.
Qed.

Lemma create_race_ends_cycle_witness :
  let w' := (reportDevice 3 informer_one
               (initial_world [ReplyGet (inr StatusReasonNotFound);
                               ReplyWrite (Some StatusReasonAlreadyExists)])).2 in
  w_store w' = [] ∧
  (∃ d : Device, Devices (Spec d) = [info_a] ∧
                 w_calls w' = [CallGet "node-1"] ++ [CallCreate d]) ∧
  w_logs w' = [] ++ [Errorf "Failed to create Device %s, err: %v"].
Proof.
  apply (create_race_ends_cycle 3 informer_one
           (initial_world [ReplyGet (inr StatusReasonNotFound);
                           ReplyWrite (Some StatusReasonAlreadyExists)])
           (initial_world [ReplyGet (inr StatusReasonNotFound);
                           ReplyWrite (Some StatusReasonAlreadyExists)])
           (mkWorld [ReplyWrite (Some StatusReasonAlreadyExists)] [CallGet "node-1"] [])
           (mkWorld [] ([CallGet "node-1"] ++
                        [CallCreate
                           {| Meta := {| Name := "node-1"; ResourceVersion := 0;
                                         OwnerReferences :=
                                           [ {| APIVersion := "v1"; Kind := "Node";
                                                OwnerName := "node-1"; OwnerUID := "uid-1";
                                                Controller := Some true;
                                                BlockOwnerDeletion := Some true |} ] |};
                              Spec := {| Devices := [info_a] |} |}]) [])
           [info_a] [info_a]).
  - reflexivity.
  - vm_compute. reflexivity.
  - discriminate.
  - vm_compute. reflexivity.
Defined.

(** C7, the input at which the claim as written fails: the read answers
    not-found and the create answers already-exists.  The cycle makes
    these two calls and no other: there is no second read and no update. *)
Lemma create_race_no_fallback :
  let w' := (reportDevice 3 informer_one
               (initial_world [ReplyGet (inr StatusReasonNotFound);
                               ReplyWrite (Some StatusReasonAlreadyExists);
                               ReplyGet (inl (device_of "node-1" (mkStoredObject 1 [] [])));
                               ReplyWrite None])).2 in
  length (w_calls w') = 2%nat ∧
  w_calls w' !! 0%nat = Some (CallGet "node-1") ∧
  (∃ d, w_calls w' !! 1%nat = Some (CallCreate d)) ∧
  w_store w' = [ReplyGet (inl (device_of "node-1" (mkStoredObject 1 [] [])));
                ReplyWrite None] ∧
  w_logs w' = [Errorf "Failed to create Device %s, err: %v"].
Proof. vm_compute. split_and!; try done. eexists; reflexivity. Qed.

(** C8 (as amended).  The update path sorts the snapshot and the stored
    device list by minor index, ascending, before comparing them.  When
    the minor indices of the snapshot are pairwise distinct and the stored
    list holds the same records in any order, the two sorted lists are
    deeply equal and the update path writes nothing. *)
Theorem sorted_comparison_ignores_order {St} `{!DeviceInterface St}
    (retries : nat) (name : string) (g : list DeviceInfo) (w : World St)
    (dev : Device) (st' : St) :
  NoDup (Minor <$> g) →
  client_Get name (w_store w) = (inl dev, st') →
  Devices (Spec dev) ≡ₚ g →
  StronglySorted minor_le (sorter g) ∧
  StronglySorted minor_le (sorter (Devices (Spec dev))) ∧
  DeepEqual (sorter g) (sorter (Devices (Spec dev))) = true ∧
  let r := updateDevice retries name g w in
  r.1.1 = None ∧ w_calls r.2 = w_calls w ++ [CallGet name].
Proof.
  intros Hnd Hget Hperm.
  assert (sorter (Devices (Spec dev)) = sorter g) as Heq.
  { symmetry. by apply sorter_perm_eq. }
  split_and!; try apply sort_Slice_sorted.
  - rewrite Heq. by apply bool_decide_eq_true_2.
  - intros r. subst r.
    by rewrite (updateDevice_unchanged retries name g w dev st').
Qed.

Lemma sorted_comparison_ignores_order_witness :
  StronglySorted minor_le (sorter [info_b; info_a]) ∧
  StronglySorted minor_le (sorter [info_a; info_b]) ∧
  DeepEqual (sorter [info_b; info_a]) (sorter [info_a; info_b]) = true ∧
  let r := updateDevice 3 "node-1" [info_b; info_a] (initial_world store_two) in
  r.1.1 = None ∧ w_calls r.2 = [] ++ [CallGet "node-1"].
Proof.
  apply (sorted_comparison_ignores_order 3 "node-1" [info_b; info_a]
           (initial_world store_two)
           (device_of "node-1" (mkStoredObject 1 [] [info_a; info_b])) store_two).
  - apply (bool_decide_unpack _). vm_compute. exact I.
  - reflexivity.
  - apply Permutation_swap.
Defined.

(** C8, the input at which the claim as written fails: two records share
    minor index 0.  The snapshot and the stored list hold the same two
    records in opposite orders; sorting moves neither, the comparison
    finds them different and the update path writes. *)
Lemma tied_minors_compare_unequal :
  [tie_b; tie_a] ≡ₚ [tie_a; tie_b] ∧
  sorter [tie_a; tie_b] = [tie_a; tie_b] ∧
  sorter [tie_b; tie_a] = [tie_b; tie_a] ∧
  DeepEqual (sorter [tie_a; tie_b]) (sorter [tie_b; tie_a]) = false ∧
  length (writes (w_calls
    (updateDevice 3 "node-1" [tie_a; tie_b] (initial_world store_tied)).2)) = 1%nat.
Proof. split; [apply Permutation_swap|]. vm_compute. done. Qed.


(* ===================================================================== *)
(** ** Facts about the health monitor *)
(* ===================================================================== *)

(** A guard [x ≠ x] of the code is false. *)
Ltac guard_refuted :=
  rewrite bool_decide_eq_false_2 by (let H := fresh in intros H; by apply H).

Lemma receive_unhealthy s xs d :
  d ∈ unhealthyGPU (receive s xs) ↔ d ∈ unhealthyGPU s ∨ d ∈ xs.
Proof.
  unfold receive. revert s. induction xs as [|x xs IH]; intros s; simpl.
  - rewrite elem_of_nil. tauto.
  - rewrite IH. simpl. rewrite elem_of_union, elem_of_singleton, elem_of_cons. tauto.
Qed.

Lemma elem_of_sends t d : d ∈ sends t ↔ Send d ∈ t.
Proof.
  unfold sends. rewrite list_elem_of_omap. split.
  - intros (e & He & Hd). destruct e; by simplify_eq.
  - intros Hd. by exists (Send d).
Qed.

Lemma elem_of_registrations t d : d ∈ registrations t ↔ ∃ ret, Registered d ret ∈ t.
Proof.
  unfold registrations. rewrite list_elem_of_omap. split.
  - intros (e & He & Hd). destruct e; simplify_eq. eauto.
  - intros [ret Hd]. by exists (Registered d ret).
Qed.

Lemma sends_app t1 t2 : sends (t1 ++ t2) = sends t1 ++ sends t2.
Proof. apply omap_app. Qed.

Lemma sends_map_Send devs : sends (map Send devs) = devs.
Proof. induction devs as [|d devs IH]; simpl; [done|]. by f_equal. Qed.

Lemma sends_matching uuid devs :
  sends (flat_map (λ d, if bool_decide (d = uuid) then [Send d] else []) devs)
  = filter (λ d, d = uuid) devs.
Proof.
  induction devs as [|d devs IH]; simpl; [done|].
  rewrite sends_app, IH. case_bool_decide.
  - by rewrite filter_cons_True.
  - by rewrite filter_cons_False.
Qed.

Lemma elem_of_flat_map {A B} (f : A → list B) (l : list A) (x : A) (y : B) :
  x ∈ l → y ∈ f x → y ∈ flat_map f l.
Proof.
  induction l as [|z l IH]; simpl; [by intros ?%elem_of_nil|].
  intros [->|Hx]%elem_of_cons Hy; apply elem_of_app; [by left|right; by apply IH].
Qed.

Lemma length_zero_empty (u : string) : String.length u = 0%nat ↔ u = "".
Proof. destruct u; simpl; split; intros; done. Qed.

(* ===================================================================== *)
(** ** Setup and event handling of the monitor *)
(* ===================================================================== *)

(** C3 (the code departs from it).  The wait returns, without error, an
    event whose type is a single-bit ECC error, not the Xid critical
    error; the iteration does not ignore it and sends the device's
    identifier on the channel. *)
Theorem non_critical_event_marks_device :
  let e := mkEventData board_ok EventTypeSingleBitEccError 0 in
  EventType e ≠ EventTypeXidCriticalError ∧
  sends (@watch_step Board example_nvml ["GPU-1"; "GPU-2"] (e, SUCCESS)) = ["GPU-1"] ∧
  sends (@watch_step Board example_nvml ["GPU-1"; "GPU-2"] (e, ERROR_UNKNOWN)) = [].
Proof. vm_compute. split_and!; done. Qed.

(** C5.  A fault-critical event that reaches the resolution step (its
    code is not one of the application-level ones and the identifier
    lookup succeeds): when the identifier is empty, every monitored
    identifier is sent, in order, and so ends up in the unhealthy set;
    when it is not empty, the identifiers sent are exactly the monitored
    ones equal to it, and the unhealthy set gains that identifier and no
    other. *)
Theorem critical_event_marks {Handle} `{!Nvml Handle} (devs : list string)
    (e : EventData Handle) (ret : Return) (uuid : string) (s : statesInformer) :
  EventType e = EventTypeXidCriticalError →
  is_application_error (EvData e) = false →
  GetUUID (EvDevice e) = (uuid, SUCCESS) →
  let marked := sends (watch_step devs (e, ret)) in
  (uuid = "" →
     marked = devs ∧
     ∀ d, d ∈ unhealthyGPU (receive s marked) ↔ d ∈ unhealthyGPU s ∨ d ∈ devs) ∧
  (uuid ≠ "" →
     (∀ d, d ∈ marked ↔ d = uuid ∧ d ∈ devs) ∧
     ∀ d, d ∈ unhealthyGPU (receive s marked) ↔
          d ∈ unhealthyGPU s ∨ (d = uuid ∧ d ∈ devs)).
Proof.
  intros Htype Happ Huuid marked. subst marked. unfold watch_step.
  rewrite Htype, Happ, Huuid.
  rewrite (bool_decide_eq_false_2 (EventTypeXidCriticalError ≠ _)) by (intros H; by apply H).
  rewrite andb_false_r. guard_refuted.
  split.
  - intros ->. rewrite bool_decide_eq_true_2 by done.
    rewrite sends_map_Send. split; [done|]. intros d. apply receive_unhealthy.
  - intros Hne. rewrite bool_decide_eq_false_2 by (by rewrite length_zero_empty).
    rewrite sends_matching. split.
    + intros d. by rewrite list_elem_of_filter.
    + intros d. by rewrite receive_unhealthy, list_elem_of_filter.
Qed.

Lemma critical_event_marks_witness :
  let marked := sends (@watch_step Board example_nvml ["GPU-1"; "GPU-2"; "GPU-3"]
                         (mkEventData board_anonymous EventTypeXidCriticalError 79,
                          SUCCESS)) in
  ("" = "" →
     marked = ["GPU-1"; "GPU-2"; "GPU-3"] ∧
     ∀ d, d ∈ unhealthyGPU (receive informer_one marked) ↔
          d ∈ unhealthyGPU informer_one ∨ d ∈ ["GPU-1"; "GPU-2"; "GPU-3"]) ∧
  ("" ≠ "" →
     (∀ d, d ∈ marked ↔ d = "" ∧ d ∈ ["GPU-1"; "GPU-2"; "GPU-3"]) ∧
     ∀ d, d ∈ unhealthyGPU (receive informer_one marked) ↔
          d ∈ unhealthyGPU informer_one ∨ (d = "" ∧ d ∈ ["GPU-1"; "GPU-2"; "GPU-3"])).
Proof.
  apply (@critical_event_marks Board example_nvml ["GPU-1"; "GPU-2"; "GPU-3"]
           (mkEventData board_anonymous EventTypeXidCriticalError 79) SUCCESS ""
           informer_one); reflexivity.
Defined.

(** C9.  With the event set created, every monitored device whose handle
    is found gets its registration attempted, whatever the registrations
    of the other devices returned; if its registration returns
    not-supported its identifier is sent during setup, ahead of everything
    the waiting loop does, so it is in the unhealthy set even when the
    loop never handles an event. *)
Theorem unsupported_device_marked_at_setup {Handle} `{!Nvml Handle}
    (devs : list string) (waits : list (EventData Handle * Return))
    (d : string) (h : Handle) :
  EventSetCreate = SUCCESS →
  d ∈ devs →
  DeviceGetHandleByUUID d = (h, SUCCESS) →
  checkHealth devs waits =
    (Stopped, register_devices devs ++ flat_map (watch_step devs) waits) ∧
  d ∈ registrations (register_devices devs) ∧
  (DeviceRegisterEvents h EventTypeXidCriticalError = ERROR_NOT_SUPPORTED →
     d ∈ sends (register_devices devs) ∧
     ∀ s, d ∈ unhealthyGPU (receive s (sends (checkHealth devs []).2)) ∧
          d ∈ unhealthyGPU (receive s (sends (checkHealth devs waits).2))).
Proof.
  intros Hset Hd Hh.
  assert (checkHealth devs waits =
    (Stopped, register_devices devs ++ flat_map (watch_step devs) waits)) as Hck.
  { unfold checkHealth. rewrite Hset.
    by guard_refuted. }
  split_and!; [done| |].
  - apply elem_of_registrations.
    exists (DeviceRegisterEvents h EventTypeXidCriticalError).
    apply (elem_of_flat_map _ _ d); [done|].
    unfold register_device. rewrite Hh.
    guard_refuted.
    repeat case_bool_decide; by left.
  - intros Hreg.
    assert (d ∈ sends (register_devices devs)) as Hsent.
    { apply elem_of_sends, (elem_of_flat_map _ _ d); [done|].
      unfold register_device. rewrite Hh.
      guard_refuted.
      rewrite Hreg. rewrite bool_decide_eq_true_2 by done.
      do 2 right. by left. }
    split; [done|]. intros s.
    unfold checkHealth. rewrite Hset.
    guard_refuted. cbn [snd].
    rewrite !receive_unhealthy, !sends_app, !elem_of_app. tauto.
Qed.

Lemma unsupported_device_marked_at_setup_witness :
  @checkHealth Board example_nvml ["GPU-3"; "GPU-2"; "GPU-1"] [] =
    (Stopped, @register_devices Board example_nvml ["GPU-3"; "GPU-2"; "GPU-1"] ++
              flat_map (@watch_step Board example_nvml ["GPU-3"; "GPU-2"; "GPU-1"]) []) ∧
  "GPU-2" ∈ registrations (@register_devices Board example_nvml ["GPU-3"; "GPU-2"; "GPU-1"]) ∧
  (@DeviceRegisterEvents Board example_nvml board_old EventTypeXidCriticalError
     = ERROR_NOT_SUPPORTED →
     "GPU-2" ∈ sends (@register_devices Board example_nvml ["GPU-3"; "GPU-2"; "GPU-1"]) ∧
     ∀ s, "GPU-2" ∈ unhealthyGPU
            (receive s (sends (@checkHealth Board example_nvml
                                 ["GPU-3"; "GPU-2"; "GPU-1"] []).2)) ∧
          "GPU-2" ∈ unhealthyGPU
            (receive s (sends (@checkHealth Board example_nvml
                                 ["GPU-3"; "GPU-2"; "GPU-1"] []).2))).
Proof.
  apply (@unsupported_device_marked_at_setup Board example_nvml
           ["GPU-3"; "GPU-2"; "GPU-1"] [] "GPU-2" board_old).
  - reflexivity.
  - apply (bool_decide_unpack _). vm_compute. exact I.
  - reflexivity.
Defined.

(* ===================================================================== *)
(** ** Further properties of the reconciler *)
(* ===================================================================== *)

Lemma reportDevice_empty_never_creates_witness :
  ∃ new, w_calls (reportDevice 3 informer_outage (initial_world store_one)).2
         = [] ++ new ∧
         Forall (λ c, is_create c = false) new.
Proof.
  apply (reportDevice_empty_never_creates 3 informer_outage (initial_world store_one)).
  reflexivity.
Defined.

Lemma UpdateTrace_app name g cs1 cs2 :
  UpdateTrace name g cs1 → UpdateTrace name g cs2 → UpdateTrace name g (cs1 ++ cs2).
Proof.
  induction 1 as [|rest _ IH|d rest Hd _ IH]; intros H2; simpl.
  - done.
  - constructor. by apply IH.
  - constructor; [done|]. by apply IH.
Qed.

Section ReconcilerTraces.
Context {St : Type} `{!DeviceInterface St}.

Lemma attempt_trace name g (w : World St) :
  ∃ new, w_calls (updateDevice_attempt name g w).2 = w_calls w ++ new ∧
         UpdateTrace name g new.
Proof.
  unfold updateDevice_attempt, bind, deviceClient_Get, deviceClient_Update, klog, ret.
  destruct (client_Get name (w_store w)) as [[dev|e] st']; simpl.
  - destruct (DeepEqual _ _); simpl.
    + exists [CallGet name]. split; [done|]. by repeat constructor.
    + destruct (client_Update _ _) as [r st'']; simpl.
      eexists [CallGet name; CallUpdate _]. rewrite <-app_assoc.
      split; [done|]. by repeat constructor.
  - exists [CallGet name]. split; [done|]. by repeat constructor.
Qed.

Lemma retry_trace (T : list Call → Prop) retries (fn : M St error) :
  (∀ cs1 cs2, T cs1 → T cs2 → T (cs1 ++ cs2)) →
  (∀ w, ∃ new, w_calls (fn w).2 = w_calls w ++ new ∧ T new) →
  ∀ w, ∃ new, w_calls (RetryOnConflictOrTooManyRequests retries fn w).2
              = w_calls w ++ new ∧ T new.
Proof.
  intros Happ Hfn. induction retries as [|n IH]; intros w; simpl; unfold bind, ret.
  - destruct (Hfn w) as (new & Hc & Hnew).
    destruct (fn w) as [[e|] w1]; simpl in *; [|by eauto].
    destruct (_ || _); simpl; by eauto.
  - destruct (Hfn w) as (new & Hc & Hnew).
    destruct (fn w) as [[e|] w1]; simpl in *; [|by eauto].
    destruct (_ || _); simpl; [|by eauto].
    destruct (IH w1) as (new' & Hc' & Hnew').
    exists (new ++ new'). rewrite Hc', Hc, <-app_assoc. by auto.
Qed.

Lemma updateDevice_returns_sorted retries name g (w : World St) :
  (updateDevice retries name g w).1.2 = sorter g.
Proof.
  unfold updateDevice, bind, ret.
  by destruct (RetryOnConflictOrTooManyRequests _ _ _).
Qed.

(** X2.  Whatever the client answers and however often the update path
    retries, the calls it makes are a sequence of attempts on the given
    name: each attempt reads the resource and then, at most once, updates
    it; every update carries as its device list the snapshot sorted by
    minor index, which holds the same records as the snapshot.  The update
    path never creates and never writes without reading first. *)
Theorem updateDevice_trace (retries : nat) (name : string)
    (g : list DeviceInfo) (w : World St) :
  ∃ new : list Call,
    w_calls (updateDevice retries name g w).2 = w_calls w ++ new ∧
    UpdateTrace name (sorter g) new ∧
    sorter g ≡ₚ g ∧
    StronglySorted minor_le (sorter g) ∧
    (updateDevice retries name g w).1.2 = sorter g.
Proof.
  unfold updateDevice, bind, ret.
  destruct (retry_trace (UpdateTrace name (sorter g)) retries
              (updateDevice_attempt name (sorter g))
              (UpdateTrace_app name (sorter g))
              (attempt_trace name (sorter g)) w) as (new & Hc & Hnew).
  destruct (RetryOnConflictOrTooManyRequests _ _ _) as [err w2]; simpl in *.
  exists new. split_and!; [done|done| |apply sort_Slice_sorted|done].
  apply sort_Slice_perm.
Qed.

(** X3.  A cycle makes the calls of its update path and then at most one
    more, a create.  The create happens only when the update path ended
    with not-found and the snapshot is not empty; the created resource is
    named after the node, is owned by the node (controller and
    block-owner-deletion set) and holds the snapshot sorted by minor
    index. *)
Theorem reportDevice_create_shape (retries : nat) (s : statesInformer) (w : World St) :
  let g := (buildGPUDevice s w).1 in
  let u := updateDevice retries (NodeName (node s)) g (buildGPUDevice s w).2 in
  let w' := (reportDevice retries s w).2 in
  w_calls w' = w_calls u.2 ∨
  ∃ d : Device,
    w_calls w' = w_calls u.2 ++ [CallCreate d] ∧
    u.1.1 = Some StatusReasonNotFound ∧
    g ≠ [] ∧
    Name (Meta d) = NodeName (node s) ∧
    OwnerReferences (Meta d) = [node_owner (node s)] ∧
    Devices (Spec d) = sorter g.
Proof.
  intros g u w'. subst g u w'. rewrite reportDevice_unfold.
  destruct (buildGPUDevice s w) as [g w1]; simpl.
  pose proof (updateDevice_returns_sorted retries (NodeName (node s)) g w1) as Hg.
  destruct (updateDevice retries (NodeName (node s)) g w1) as [[err g'] w2];
    simpl in *. subst g'.
  destruct err as [e|]; simpl; [|by left].
  destruct (IsNotFound e) eqn:He; simpl; [|by left].
  apply bool_decide_eq_true_1 in He as ->.
  case_bool_decide as Hlen; simpl; [by left|].
  unfold createDevice, deviceClient_Create.
  destruct (client_Create _ _) as [[e'|] st3]; simpl; right;
    (eexists; split_and!; [reflexivity|done| |done|done|done]);
    intros ->; by apply Hlen.
Qed.
End ReconcilerTraces.

(** The store a cycle leaves behind, against the in-memory store. *)
Lemma reportDevice_object_store_result retries s st cs ls :
  let name := NodeName (node s) in
  let g := (buildGPUDevice s (mkWorld st cs ls)).1 in
  w_store (reportDevice retries s (mkWorld st cs ls)).2 =
    match st !! name with
    | Some o =>
        if DeepEqual (sorter g) (sorter (so_devices o)) then st
        else <[name := mkStoredObject (so_version o + 1) (so_owners o) (sorter g)]> st
    | None =>
        if bool_decide (length g = 0%nat) then st
        else <[name := mkStoredObject 1 [node_owner (node s)] (sorter g)]> st
    end.
Proof.
  intros name g. subst g. rewrite reportDevice_unfold.
  pose proof (buildGPUDevice_world s (mkWorld st cs ls)) as [Hs Hc].
  destruct (buildGPUDevice s (mkWorld st cs ls)) as [g [st1 cs1 ls1]]; simpl in *.
  subst st1 cs1. fold name.
  destruct (st !! name) as [o|] eqn:Hst.
  - destruct (decide (sorter g = sorter (so_devices o))) as [Heq|Hne].
    + rewrite (updateDevice_unchanged retries name g _ (device_of name o) st);
        [|by simpl; unfold store_Get; rewrite Hst|done].
      simpl. unfold DeepEqual. by rewrite bool_decide_eq_true_2.
    + rewrite (updateDevice_object_store_changed retries name g o) by done.
      simpl. unfold DeepEqual. by rewrite bool_decide_eq_false_2.
  - rewrite (updateDevice_not_found retries name g _ st);
      [|by simpl; unfold store_Get; rewrite Hst].
    simpl. rewrite sorter_length.
    case_bool_decide as Hlen; simpl; [done|].
    unfold createDevice, deviceClient_Create; simpl. fold name.
    unfold store_Create; simpl. fold name. by rewrite Hst.
Qed.

(** X4.  Against the in-memory store a cycle touches only the resource
    named after the node.  A stored resource whose list already agrees
    with the snapshot is left as it is; one that differs keeps its owner
    references, gets the sorted snapshot as its device list and moves to
    the next resource version; a missing one is created, owned by the
    node, unless the snapshot is empty. *)
Theorem reportDevice_store_effect (retries : nat) (s : statesInformer)
    (st : gmap string StoredObject) :
  let name := NodeName (node s) in
  let g := (buildGPUDevice s (initial_world st)).1 in
  let st' := w_store (reportDevice retries s (initial_world st)).2 in
  (∀ other : string, other ≠ name → st' !! other = st !! other) ∧
  st' !! name =
    match st !! name with
    | Some o =>
        if DeepEqual (sorter g) (sorter (so_devices o)) then Some o
        else Some (mkStoredObject (so_version o + 1) (so_owners o) (sorter g))
    | None =>
        if bool_decide (length g = 0%nat) then None
        else Some (mkStoredObject 1 [node_owner (node s)] (sorter g))
    end.
Proof.
  intros name g st'. subst st' g. unfold initial_world.
  rewrite reportDevice_object_store_result. fold name.
  destruct (st !! name) as [o|] eqn:Hst.
  - destruct (DeepEqual _ _).
    + split; [done|]. done.
    + split; [by intros other Hne; rewrite lookup_insert_ne|].
      by rewrite lookup_insert_eq.
  - case_bool_decide.
    + split; [done|]. done.
    + split; [by intros other Hne; rewrite lookup_insert_ne|].
      by rewrite lookup_insert_eq.
Qed.

(* ===================================================================== *)
(** ** Further properties of the inventory builder *)
(* ===================================================================== *)

(** X5.  Recording an identifier as unhealthy changes the next snapshot
    in one way only: the records of that identifier get healthy = false;
    every other record, and every other field, is what it was. *)
Theorem markUnhealthy_changes_health_only {St} (s : statesInformer) (d : string)
    (w : World St) :
  (buildGPUDevice (markUnhealthy s d) w).1 =
    map (λ info, if bool_decide (UUID info = d) then set_unhealthy info else info)
        (buildGPUDevice s w).1.
Proof.
  unfold buildGPUDevice, bind, klog, ret, GetNodeResourceMetric; simpl.
  destruct (Error (metricsCache s)); [done|].
  case_bool_decide; simpl; [done|].
  rewrite map_map. apply map_ext. intros gpu.
  unfold deviceInfoOf, set_unhealthy; simpl.
  case_bool_decide as Hd.
  - rewrite decide_True; [done|]. apply elem_of_union_l. by apply elem_of_singleton.
  - destruct (decide (DeviceUUID gpu ∈ unhealthyGPU s)) as [Hin|Hout].
    + rewrite decide_True; [done|]. by apply elem_of_union_r.
    + rewrite decide_False; [done|].
      intros [Heq%elem_of_singleton|Hin]%elem_of_union; done.
Qed.

(** X6.  The builder fails softly: the snapshot is empty exactly when the
    metrics query reported an error or no GPU; in every case the builder
    leaves the store and the recorded calls alone and adds at most one
    line to the log. *)
Theorem buildGPUDevice_soft_failure {St} (s : statesInformer) (w : World St) :
  ((buildGPUDevice s w).1 = [] ↔
     Error (GetNodeResourceMetric s) ≠ None ∨ GPUs (GetNodeResourceMetric s) = []) ∧
  w_store (buildGPUDevice s w).2 = w_store w ∧
  w_calls (buildGPUDevice s w).2 = w_calls w ∧
  ∃ lines, w_logs (buildGPUDevice s w).2 = w_logs w ++ lines ∧ (length lines ≤ 1)%nat.
Proof.
  unfold buildGPUDevice, bind, klog, ret.
  destruct (Error (GetNodeResourceMetric s)) as [e|]; simpl.
  - split_and!; [|done|done|eexists [_]; split; [done|simpl; lia]].
    split; [intros _; by left|done].
  - case_bool_decide as Hlen; simpl.
    + apply length_zero_iff_nil in Hlen.
      split_and!; [|done|done|eexists [_]; split; [done|simpl; lia]].
      split; [intros _; by right|done].
    + split_and!; [|done|done|exists []; split; [by rewrite app_nil_r|simpl; lia]].
      split.
      * intros Hmap. apply map_eq_nil in Hmap. by rewrite Hmap in Hlen.
      * intros [Herr|Hnil]; [done|]. by rewrite Hnil in Hlen.
Qed.

(* ===================================================================== *)
(** ** Further properties of the health monitor *)
(* ===================================================================== *)

Lemma elem_of_flat_map_inv {A B} (f : A → list B) (l : list A) (y : B) :
  y ∈ flat_map f l → ∃ x, x ∈ l ∧ y ∈ f x.
Proof.
  induction l as [|z l IH]; simpl; [by intros ?%elem_of_nil|].
  intros [Hy|Hy]%elem_of_app.
  - exists z. split; [by left|done].
  - destruct (IH Hy) as (x & Hx & Hyx). exists x. split; [by right|done].
Qed.

Lemma receive_frame s xs :
  node (receive s xs) = node s ∧ metricsCache (receive s xs) = metricsCache s.
Proof.
  unfold receive. revert s. induction xs as [|x xs IH]; intros s; simpl; [done|].
  destruct (IH (markUnhealthy s x)) as [-> ->]. done.
Qed.

#[global] Instance handle_found_dec {Handle : Type} `{!Nvml Handle} d :
  Decision (handle_found d).
Proof. unfold handle_found. apply _. Defined.

#[global] Instance registration_unsupported_dec {Handle : Type} `{!Nvml Handle} d :
  Decision (registration_unsupported d).
Proof. unfold registration_unsupported. apply _. Defined.

Section HealthMonitorFacts.
Context {Handle : Type} `{!Nvml Handle}.

Lemma register_device_sends d :
  sends (register_device d) = if decide (registration_unsupported d) then [d] else [].
Proof.
  destruct (decide (registration_unsupported d)) as [Hyes|Hno];
    unfold registration_unsupported, handle_found, register_device in *;
    destruct (DeviceGetHandleByUUID d) as [h ret]; simpl in *.
  - destruct Hyes as [-> ->]. by guard_refuted.
  - case_bool_decide as Hret; simpl; [done|].
    case_bool_decide as Hns; simpl; [by destruct Hno|].
    by case_bool_decide.
Qed.

Lemma register_device_registrations d :
  registrations (register_device d) = if decide (handle_found d) then [d] else [].
Proof.
  destruct (decide (handle_found d)) as [Hyes|Hno];
    unfold handle_found, register_device in *;
    destruct (DeviceGetHandleByUUID d) as [h ret]; simpl in *.
  - subst ret. guard_refuted. repeat case_bool_decide; done.
  - by rewrite bool_decide_eq_true_2.
Qed.

Lemma register_devices_sends devs :
  sends (register_devices devs) = filter registration_unsupported devs.
Proof.
  unfold register_devices. induction devs as [|d devs IH]; simpl; [done|].
  rewrite sends_app, IH, register_device_sends.
  destruct (decide (registration_unsupported d)).
  - by rewrite filter_cons_True.
  - by rewrite filter_cons_False.
Qed.

Lemma register_devices_registrations devs :
  registrations (register_devices devs) = filter handle_found devs.
Proof.
  unfold register_devices. induction devs as [|d devs IH]; simpl; [done|].
  unfold registrations in *. rewrite omap_app, IH.
  fold (registrations (register_device d)). rewrite register_device_registrations.
  destruct (decide (handle_found d)).
  - by rewrite filter_cons_True.
  - by rewrite filter_cons_False.
Qed.

(** X9.  During setup the identifiers sent are exactly the monitored
    devices whose handle is found and whose registration returns
    not-supported, in order; a device whose handle is not found is never
    registered, and one whose registration fails with another error is
    registered but not marked. *)
Theorem register_devices_marks_unsupported_only (devs : list string) :
  sends (register_devices devs) = filter registration_unsupported devs ∧
  registrations (register_devices devs) = filter handle_found devs.
Proof. split; [apply register_devices_sends|apply register_devices_registrations]. Qed.

Lemma watch_step_sends_monitored devs wait :
  Forall (λ d, d ∈ devs) (sends (watch_step devs wait)).
Proof.
  unfold watch_step. destruct wait as [e ret].
  destruct (_ && _); [by constructor|].
  destruct (is_application_error _); [by constructor|].
  destruct (GetUUID (EvDevice e)) as [uuid ret'].
  case_bool_decide; [by repeat constructor|].
  case_bool_decide.
  - rewrite sends_map_Send. by apply Forall_forall.
  - rewrite sends_matching. apply Forall_forall.
    by intros d [_ Hd]%list_elem_of_filter.
Qed.

Lemma checkHealth_sends_in_devs devs (waits : list (EventData Handle * Return)) :
  Forall (λ d, d ∈ devs) (sends (checkHealth devs waits).2).
Proof.
  unfold checkHealth. case_bool_decide; simpl; [by constructor|].
  rewrite sends_app. apply Forall_app. split.
  - rewrite register_devices_sends.
    apply Forall_forall. by intros d [_ Hd]%list_elem_of_filter.
  - induction waits as [|wait waits IH]; simpl; [constructor|].
    rewrite sends_app. apply Forall_app. split; [|done].
    apply watch_step_sends_monitored.
Qed.

(** X7.  Every identifier [checkHealth] sends is one of the monitored
    identifiers it was started with, whatever the library returns and
    whatever events arrive; when the event set cannot be created it exits
    without registering or sending anything. *)
Theorem checkHealth_sends_monitored (devs : list string)
    (waits : list (EventData Handle * Return)) :
  Forall (λ d, d ∈ devs) (sends (checkHealth devs waits).2) ∧
  (if bool_decide (EventSetCreate ≠ SUCCESS)
   then (checkHealth devs waits).1 = Exit1 ∧
        sends (checkHealth devs waits).2 = [] ∧
        registrations (checkHealth devs waits).2 = []
   else (checkHealth devs waits).1 = Stopped).
Proof.
  split; [apply checkHealth_sends_in_devs|].
  unfold checkHealth. by case_bool_decide.
Qed.

(** X8.  An iteration of the waiting loop sends nothing when the wait
    failed on an event that is not of the Xid critical type, when the
    event carries one of the application-level codes 13, 31, 43, 45 or 68,
    when the identifier of the event's device cannot be read, or when that
    identifier is not empty and not a monitored one. *)
Theorem watch_step_ignores (devs : list string) (e : EventData Handle) (ret : Return) :
  (ret ≠ SUCCESS ∧ EventType e ≠ EventTypeXidCriticalError) ∨
  EvData e ∈ [13; 31; 43; 45; 68] ∨
  (GetUUID (EvDevice e)).2 ≠ SUCCESS ∨
  ((GetUUID (EvDevice e)).1 ≠ "" ∧ (GetUUID (EvDevice e)).1 ∉ devs) →
  sends (watch_step devs (e, ret)) = [].
Proof.
  intros Hcase. unfold watch_step.
  destruct (bool_decide (ret ≠ SUCCESS)
            && bool_decide (EventType e ≠ EventTypeXidCriticalError)) eqn:Hguard;
    [done|].
  destruct (is_application_error (EvData e)) eqn:Happ; [done|].
  destruct (GetUUID (EvDevice e)) as [uuid ret'] eqn:Huuid; simpl in *.
  destruct (bool_decide (ret' ≠ SUCCESS)) eqn:Hret'; [done|].
  apply bool_decide_eq_false_1, dec_stable in Hret'.
  destruct Hcase as [[Hret Htype]|[Hdata|[Hfail|[Hne Hout]]]].
  - rewrite !bool_decide_eq_true_2 in Hguard by done. done.
  - exfalso. unfold is_application_error in Happ.
    repeat (apply elem_of_cons in Hdata as [Heq|Hdata]; [by rewrite Heq in Happ|]).
    by apply elem_of_nil in Hdata.
  - done.
  - rewrite bool_decide_eq_false_2 by (by rewrite length_zero_empty).
    rewrite sends_matching.
    apply elem_of_nil_inv. intros d [Heq Hd]%list_elem_of_filter.
    simpl in Heq. subst d. done.
Qed.

Lemma enumerate_device_spec deviceIndex u :
  u ∈ enumerate_device deviceIndex ↔
  (DeviceGetHandleByIndex deviceIndex).2 = SUCCESS ∧
  u = (GetUUID (DeviceGetHandleByIndex deviceIndex).1).1.
Proof.
  unfold enumerate_device.
  destruct (DeviceGetHandleByIndex deviceIndex) as [h ret]; simpl.
  case_bool_decide as Hret.
  - rewrite elem_of_nil. split; [done|]. by intros [? _].
  - destruct (GetUUID h) as [uuid ret']; simpl.
    rewrite list_elem_of_singleton. split; [done|]. by intros [_ ?].
Qed.

Lemma enumerate_device_length deviceIndex :
  (length (enumerate_device deviceIndex) ≤ 1)%nat.
Proof.
  unfold enumerate_device.
  destruct (DeviceGetHandleByIndex deviceIndex) as [h ret].
  case_bool_decide; simpl; [lia|]. destruct (GetUUID h); simpl; lia.
Qed.

(** X11.  The enumeration monitors exactly the identifiers returned for
    the indices below the count whose handle is found: an index whose
    handle lookup fails is skipped, but a failed identifier lookup does
    not skip the device, so whatever string it returned is monitored.  At
    most one identifier per index is produced, none for a count that is
    not positive. *)
Theorem enumerate_devices_spec (count : Z) :
  (∀ u : string,
     u ∈ enumerate_devices count ↔
     ∃ i : Z, 0 ≤ i < count ∧
              (DeviceGetHandleByIndex i).2 = SUCCESS ∧
              u = (GetUUID (DeviceGetHandleByIndex i).1).1) ∧
  (length (enumerate_devices count) ≤ Z.to_nat count)%nat.
Proof.
  unfold enumerate_devices. split.
  - intros u. split.
    + intros (i & Hi & Hu)%elem_of_flat_map_inv.
      apply elem_of_seqZ in Hi. apply enumerate_device_spec in Hu.
      exists i. split; [lia|done].
    + intros (i & Hi & Hu). apply (elem_of_flat_map _ _ i).
      * apply elem_of_seqZ. lia.
      * by apply enumerate_device_spec.
  - rewrite <-(length_seqZ 0 count).
    induction (seqZ 0 count) as [|i l IH]; simpl; [done|].
    rewrite length_app. pose proof (enumerate_device_length i). lia.
Qed.

(** X10.  [gpuHealCheck] only adds to the unhealthy set, and only
    identifiers of enumerated devices; it leaves the node and the metrics
    cache alone.  When the device count cannot be read or is zero the
    informer is returned unchanged: monitoring does not start. *)
Theorem gpuHealCheck_bounds (s : statesInformer)
    (waits : list (EventData Handle * Return)) :
  node (gpuHealCheck s waits) = node s ∧
  metricsCache (gpuHealCheck s waits) = metricsCache s ∧
  unhealthyGPU s ⊆ unhealthyGPU (gpuHealCheck s waits) ∧
  unhealthyGPU (gpuHealCheck s waits) ⊆
    unhealthyGPU s ∪ list_to_set (enumerate_devices DeviceGetCount.1) ∧
  (if bool_decide (DeviceGetCount.2 ≠ SUCCESS) || bool_decide (DeviceGetCount.1 = 0)
   then gpuHealCheck s waits = s else True).
Proof.
  unfold gpuHealCheck. destruct DeviceGetCount as [count ret]; simpl.
  case_bool_decide as Hret; simpl.
  { split_and!; try done. apply union_subseteq_l. }
  case_bool_decide as Hcount; simpl.
  { split_and!; try done. apply union_subseteq_l. }
  destruct (receive_frame s (sends (checkHealth (enumerate_devices count) waits).2))
    as [-> ->].
  split_and!; try done.
  - intros d Hd. apply receive_unhealthy. by left.
  - intros d [Hd|Hd]%receive_unhealthy.
    + by apply elem_of_union_l.
    + apply elem_of_union_r, elem_of_list_to_set.
      pose proof (checkHealth_sends_in_devs (enumerate_devices count) waits) as Hall.
      rewrite Forall_forall in Hall. by apply Hall.
Qed.
End HealthMonitorFacts.

Lemma watch_step_ignores_witness :
  sends (@watch_step Board example_nvml ["GPU-1"; "GPU-2"]
           (mkEventData board_ok EventTypeXidCriticalError 31, SUCCESS)) = [].
Proof.
  apply (@watch_step_ignores Board example_nvml ["GPU-1"; "GPU-2"]
           (mkEventData board_ok EventTypeXidCriticalError 31) SUCCESS).
  right; left. simpl. do 1 right. by left.
Defined.

Lemma enumerate_devices_spec_witness :
  (∀ u : string,
     u ∈ @enumerate_devices Board nvml_with_mute 2 ↔
     ∃ i : Z, 0 ≤ i < 2 ∧
              (@DeviceGetHandleByIndex Board nvml_with_mute i).2 = SUCCESS ∧
              u = (@GetUUID Board nvml_with_mute
                     (@DeviceGetHandleByIndex Board nvml_with_mute i).1).1) ∧
  (length (@enumerate_devices Board nvml_with_mute 2) ≤ Z.to_nat 2)%nat.
Proof. apply (@enumerate_devices_spec Board nvml_with_mute 2). Defined.

(** The device whose identifier lookup fails is enumerated all the same,
    under the empty identifier the lookup returned. *)
Example enumerate_keeps_mute_board :
  @enumerate_devices Board nvml_with_mute 2 = ["GPU-1"; ""].
Proof. reflexivity. Qed.

(** Marking is insensitive to order and repetition: what counts is the
    set of identifiers received. *)
Lemma receive_unhealthy_set s xs :
  unhealthyGPU (receive s xs) = list_to_set xs ∪ unhealthyGPU s.
Proof.
  apply set_eq. intros d.
  rewrite receive_unhealthy, elem_of_union, elem_of_list_to_set. tauto.
Qed.

(* ===================================================================== *)
(** ** Properties of the pod validating webhook *)
(* ===================================================================== *)

Lemma shouldIgnoreIfNotPod_false req :
  shouldIgnoreIfNotPod req = false ↔
  SubResource req = "" ∧ GVRResource (Resource req) = "pods".
Proof.
  unfold shouldIgnoreIfNotPod. rewrite <-length_zero_empty.
  repeat case_bool_decide; simpl; split; try done; intros [? ?]; done.
Qed.

(** X12.  A request for a sub-resource, for a resource other than pods,
    or a pod deletion that carries no old object is admitted with an empty
    reason, whatever the two validators would say: neither of them is
    consulted. *)
Theorem Handle_admits_ignored_requests `{!PodValidators} (req : Request) :
  SubResource req ≠ "" ∨
  GVRResource (Resource req) ≠ "pods" ∨
  (RequestOperation req = Delete ∧ OldObjectRaw req = []) →
  Handle req = ValidationResponse true "" ∧
  (ConsultedProfile ∉ (validatingPodFn req).2) ∧
  (ConsultedQuota ∉ (validatingPodFn req).2).
Proof.
  intros Hcase. unfold Handle, validatingPodFn.
  destruct (shouldIgnoreIfNotPod req) eqn:Hignore; simpl.
  { split_and!; [done|by intros ?%elem_of_nil..]. }
  apply shouldIgnoreIfNotPod_false in Hignore as [Hsub Hres].
  destruct Hcase as [?|[?|[Hop Hold]]]; [done..|].
  rewrite Hop, Hold; simpl.
  split_and!; [done|by intros ?%list_elem_of_singleton..].
Qed.

Lemma Handle_admits_ignored_requests_witness :
  @Handle example_validators request_pod_subresource = ValidationResponse true "" ∧
  (ConsultedProfile ∉ (@validatingPodFn example_validators request_pod_subresource).2) ∧
  (ConsultedQuota ∉ (@validatingPodFn example_validators request_pod_subresource).2).
Proof.
  apply (@Handle_admits_ignored_requests example_validators request_pod_subresource).
  left. discriminate.
Defined.

(** The three requests of [TestValidatingHandler] that never reach a
    validator are admitted, as the test expects. *)
Example test_requests_admitted `{!PodValidators} :
  Allowed (Handle request_not_a_pod) = true ∧
  Allowed (Handle request_pod_subresource) = true ∧
  Allowed (Handle request_delete_no_old_object) = true.
Proof. done. Qed.

(** X13.  For a pod request that is validated (no sub-resource, resource
    pods, not a deletion without old object): the answer is the verdict
    and reason of the profile check exactly when neither validator
    returned an error; an error of either validator gives an errored
    answer with status 400 and that error, even if the profile check had
    admitted or denied the pod; and the quota plugin is consulted exactly
    when the profile check returned no error. *)
Theorem Handle_verdict `{!PodValidators} (req : Request) :
  SubResource req = "" →
  GVRResource (Resource req) = "pods" →
  ¬ (RequestOperation req = Delete ∧ OldObjectRaw req = []) →
  let p := clusterColocationProfileValidatingPod req in
  (∀ allowed reason,
     Handle req = ValidationResponse allowed reason ↔
     p = (allowed, reason, None) ∧ ValidatePod req = None) ∧
  (∀ code err,
     Handle req = Errored code err ↔
     code = StatusBadRequest ∧
     (p.2 = Some err ∨ (p.2 = None ∧ ValidatePod req = Some err))) ∧
  (ConsultedQuota ∈ (validatingPodFn req).2 ↔ p.2 = None).
Proof.
  intros Hsub Hres Hdel p. subst p. unfold Handle, validatingPodFn.
  rewrite (proj2 (shouldIgnoreIfNotPod_false req)) by done.
  assert (bool_decide (RequestOperation req = Delete)
          && bool_decide (length (OldObjectRaw req) = 0%nat) = false) as ->.
  { apply andb_false_iff.
    destruct (decide (RequestOperation req = Delete)) as [Hop|Hop].
    - right. apply bool_decide_eq_false_2. intros Hlen%length_zero_iff_nil. by apply Hdel.
    - left. by apply bool_decide_eq_false_2. }
  destruct (clusterColocationProfileValidatingPod req) as [[a r] [e|]]; simpl.
  - split_and!.
    + intros allowed reason. split; [done|]. by intros [? _].
    + intros code err. split.
      * intros [= <- <-]. split; [done|]. by left.
      * intros [-> [[= ->]|[? _]]]; done.
    + split; [|done]. intros Hq. apply list_elem_of_singleton in Hq. done.
  - destruct (ValidatePod req) as [e|]; simpl.
    + split_and!.
      * intros allowed reason. split; [done|]. by intros [_ ?].
      * intros code err. split.
        -- intros [= <- <-]. split; [done|]. by right.
        -- intros [-> [?|[_ [= ->]]]]; done.
      * split; [done|]. intros _. apply elem_of_cons. right. by left.
    + split_and!.
      * intros allowed reason. split.
        -- by intros [= <- <-].
        -- by intros [[= <- <-] _].
      * intros code err. split; [done|]. intros [_ [?|[_ ?]]]; done.
      * split; [done|]. intros _. apply elem_of_cons. right. by left.
Qed.

Lemma Handle_verdict_witness :
  let p := @clusterColocationProfileValidatingPod example_validators request_create_pod in
  (∀ allowed reason,
     @Handle example_validators request_create_pod = ValidationResponse allowed reason ↔
     p = (allowed, reason, None) ∧
     @ValidatePod example_validators request_create_pod = None) ∧
  (∀ code err,
     @Handle example_validators request_create_pod = Errored code err ↔
     code = StatusBadRequest ∧
     (p.2 = Some err ∨
      (p.2 = None ∧ @ValidatePod example_validators request_create_pod = Some err))) ∧
  (ConsultedQuota ∈ (@validatingPodFn example_validators request_create_pod).2 ↔
   p.2 = None).
Proof.
  apply (@Handle_verdict example_validators request_create_pod).
  - reflexivity.
  - reflexivity.
  - intros [Hop _]. discriminate Hop.
Defined.

(** A pod of the namespace the example quota plugin rejects gets status
    400, although the profile check admitted it. *)
Example quota_error_is_bad_request :
  @Handle example_validators (mkRequest "" (gvr "pods") Create [] [] "full" "pod2")
  = Errored 400 "quota exceeded".
Proof. reflexivity. Qed.

(* ===================================================================== *)
(** ** Retry after a conflict, and the two loops together *)
(* ===================================================================== *)

(** X14.  When the update of the first attempt is rejected with a
    conflict or a rate limit and the retry helper grants another attempt,
    the update path reads the resource again and applies the sorted
    snapshot to what it has just read, with the metadata of the second
    read; if that update goes through, the path returns no error after
    exactly these four calls. *)
Theorem updateDevice_retries_after_conflict {St} `{!DeviceInterface St}
    (n : nat) (name : string) (g : list DeviceInfo) (w : World St)
    (dev1 dev2 : Device) (e : StatusReason) (st1 st2 st3 st4 : St) :
  client_Get name (w_store w) = (inl dev1, st1) →
  sorter g ≠ sorter (Devices (Spec dev1)) →
  client_Update {| Meta := Meta dev1; Spec := {| Devices := sorter g |} |} st1
    = (Some e, st2) →
  e = StatusReasonConflict ∨ e = StatusReasonTooManyRequests →
  client_Get name st2 = (inl dev2, st3) →
  sorter g ≠ sorter (Devices (Spec dev2)) →
  client_Update {| Meta := Meta dev2; Spec := {| Devices := sorter g |} |} st3
    = (None, st4) →
  updateDevice (S n) name g w =
    ((None, sorter g),
     mkWorld st4
       (w_calls w ++
        [CallGet name;
         CallUpdate {| Meta := Meta dev1; Spec := {| Devices := sorter g |} |};
         CallGet name;
         CallUpdate {| Meta := Meta dev2; Spec := {| Devices := sorter g |} |}])
       (w_logs w)).
Proof.
  intros Hget1 Hne1 Hup1 He Hget2 Hne2 Hup2.
  unfold updateDevice, bind, ret. simpl. unfold bind.
  rewrite (attempt_changed name (sorter g) w dev1 st1) by done.
  unfold deviceClient_Update at 1; simpl. rewrite Hup1.
  assert (IsConflict e || IsTooManyRequests e = true) as ->.
  { destruct He as [-> | ->]; done. }
  set (w2 := mkWorld st2 _ _).
  assert (updateDevice_attempt name (sorter g) w2 =
          (None, mkWorld st4 ((w_calls w2 ++ [CallGet name]) ++
                   [CallUpdate {| Meta := Meta dev2; Spec := {| Devices := sorter g |} |}])
                   (w_logs w))) as Ha.
  { rewrite (attempt_changed name (sorter g) w2 dev2 st3) by done.
    unfold deviceClient_Update; simpl. by rewrite Hup2. }
  rewrite (retry_settled _ _ _ _ _ Ha) by done.
  subst w2; simpl. by rewrite <-!app_assoc.
Qed.

Lemma updateDevice_retries_after_conflict_witness :
  updateDevice 1 "node-1" [info_a] (initial_world conflict_script) =
    ((None, sorter [info_a]),
     mkWorld []
       ([] ++
        [CallGet "node-1";
         CallUpdate {| Meta := Meta stale_device; Spec := {| Devices := sorter [info_a] |} |};
         CallGet "node-1";
         CallUpdate {| Meta := Meta fresh_device; Spec := {| Devices := sorter [info_a] |} |}])
       []).
Proof.
  apply (updateDevice_retries_after_conflict 0 "node-1" [info_a]
           (initial_world conflict_script) stale_device fresh_device
           StatusReasonConflict
           [ReplyWrite (Some StatusReasonConflict);
            ReplyGet (inl fresh_device); ReplyWrite None]
           [ReplyGet (inl fresh_device); ReplyWrite None]
           [ReplyWrite None] []).
  - reflexivity.
  - vm_compute. discriminate.
  - reflexivity.
  - by left.
  - reflexivity.
  - vm_compute. intros [=].
  - reflexivity.
Defined.

Lemma receive_result s xs :
  receive s xs =
    {| node := node s; metricsCache := metricsCache s;
       unhealthyGPU := list_to_set xs ∪ unhealthyGPU s |}.
Proof.
  destruct (receive_frame s xs) as [Hn Hm].
  pose proof (receive_unhealthy_set s xs) as Hu.
  destruct (receive s xs) as [n m u]; simpl in *. by subst.
Qed.

(** X15.  Recording the identifiers that arrive on the channel depends
    only on which identifiers arrive, not on their order or on how often
    each one arrives: it adds them to the unhealthy set and changes
    nothing else in the informer. *)
Theorem receive_only_set_matters (s : statesInformer) (xs ys : list string) :
  (∀ d, d ∈ xs ↔ d ∈ ys) →
  receive s xs = receive s ys ∧
  node (receive s xs) = node s ∧
  metricsCache (receive s xs) = metricsCache s ∧
  ∀ d, d ∈ unhealthyGPU (receive s xs) ↔ d ∈ unhealthyGPU s ∨ d ∈ xs.
Proof.
  intros Hsame. split_and!.
  - rewrite !receive_result. f_equal. apply set_eq. intros d.
    rewrite !elem_of_union, !elem_of_list_to_set, Hsame. done.
  - apply receive_frame.
  - apply receive_frame.
  - intros d. apply receive_unhealthy.
Qed.

Lemma receive_only_set_matters_witness :
  receive informer_one ["GPU-2"; "GPU-1"; "GPU-2"] = receive informer_one ["GPU-1"; "GPU-2"] ∧
  node (receive informer_one ["GPU-2"; "GPU-1"; "GPU-2"]) = node informer_one ∧
  metricsCache (receive informer_one ["GPU-2"; "GPU-1"; "GPU-2"]) = metricsCache informer_one ∧
  ∀ d, d ∈ unhealthyGPU (receive informer_one ["GPU-2"; "GPU-1"; "GPU-2"]) ↔
       d ∈ unhealthyGPU informer_one ∨ d ∈ ["GPU-2"; "GPU-1"; "GPU-2"].
Proof.
  apply (receive_only_set_matters informer_one ["GPU-2"; "GPU-1"; "GPU-2"]
           ["GPU-1"; "GPU-2"]).
  intros d. rewrite !elem_of_cons, !elem_of_nil. tauto.
Defined.

(** X16.  The two loops together: once the health check has started on a
    library that counts at least one device and creates the event set,
    every enumerated device whose registration returns not-supported is
    reported with healthy = false by every snapshot built from then on,
    whatever events arrive. *)
Theorem unsupported_device_reported_unhealthy {Handle : Type} `{!Nvml Handle}
    (s : statesInformer) (waits : list (EventData Handle * Return)) (d : string) :
  DeviceGetCount.2 = SUCCESS →
  DeviceGetCount.1 ≠ 0 →
  EventSetCreate = SUCCESS →
  d ∈ enumerate_devices DeviceGetCount.1 →
  registration_unsupported d →
  d ∈ unhealthyGPU (gpuHealCheck s waits) ∧
  ∀ {St : Type} (w : World St) (info : DeviceInfo),
    info ∈ (buildGPUDevice (gpuHealCheck s waits) w).1 →
    UUID info = d → Health info = false.
Proof.
  intros Hret Hcount Hset Hd Hold.
  assert (d ∈ unhealthyGPU (gpuHealCheck s waits)) as Hin.
  { unfold gpuHealCheck. destruct DeviceGetCount as [count ret]; simpl in *.
    subst ret. guard_refuted. rewrite bool_decide_eq_false_2 by done.
    apply receive_unhealthy. right.
    unfold checkHealth. rewrite Hset. guard_refuted. simpl.
    rewrite sends_app. apply elem_of_app. left.
    rewrite register_devices_sends. by apply list_elem_of_filter. }
  split; [done|].
  intros St w info (gpu & _ & ->)%buildGPUDevice_elem; simpl. intros ->.
  by rewrite decide_True.
Qed.

Lemma unsupported_device_reported_unhealthy_witness :
  "GPU-2" ∈ unhealthyGPU (@gpuHealCheck Board example_nvml informer_two []) ∧
  ∀ {St : Type} (w : World St) (info : DeviceInfo),
    info ∈ (buildGPUDevice (@gpuHealCheck Board example_nvml informer_two []) w).1 →
    UUID info = "GPU-2" → Health info = false.
Proof.
  apply (@unsupported_device_reported_unhealthy Board example_nvml informer_two [] "GPU-2").
  - reflexivity.
  - discriminate.
  - reflexivity.
  - apply (bool_decide_unpack _). vm_compute. exact I.
  - split; reflexivity.
Defined.
